(** * pdf_to_podcast: episode segmentation and the conversion run

    A shallow embedding of [src/pdf_to_podcast.py]: the text helpers of
    Python that the program calls ([str.split], [str.strip], [str.join],
    list slicing, the [02d] format), the segmenter [split_text], the text
    extraction [extract_text] and the orchestrator [convert_pdf], followed
    by the properties stated about them. *)

From Stdlib Require Import String Ascii Bool ZArith Lia List.
From Stdlib Require Import DecimalString DecimalN.
Import ListNotations.
Local Open Scope Z_scope.

(** ** Python strings *)

(** A Python [str] is a sequence of Unicode code points. *)
Definition char := N.
Definition str := list char.

(** [c.isspace()] for a single code point of a [str]: the characters
    that [str.split()] and [str.strip()] treat as whitespace. *)
Definition isspace (c : char) : bool :=
  ((9 <=? c) && (c <=? 13) ||
   (28 <=? c) && (c <=? 32) ||
   (c =? 133) || (c =? 160) || (c =? 5760) ||
   (8192 <=? c) && (c <=? 8202) ||
   (c =? 8232) || (c =? 8233) || (c =? 8239) || (c =? 8287) ||
   (c =? 12288))%N.

Definition space : char := 32%N.
Definition newline : char := 10%N.

(** A literal of the program, as a [str]. *)
Definition lit (s : string) : str :=
  map N_of_ascii (list_ascii_of_string s).

(** [sep.join(parts)] *)
Fixpoint join (sep : str) (parts : list str) : str :=
  match parts with
  | [] => []
  | [p] => p
  | p :: ps => p ++ sep ++ join sep ps
  end.

(** [s.split()]: the maximal runs of non-whitespace characters, in
    order.  [cur] holds the run being read, most recent character first. *)
Fixpoint split_from (cur : str) (s : str) : list str :=
  match s with
  | [] => match cur with [] => [] | _ => [rev cur] end
  | c :: s' =>
      if isspace c
      then match cur with
           | [] => split_from [] s'
           | _ => rev cur :: split_from [] s'
           end
      else split_from (c :: cur) s'
  end.

Definition split (s : str) : list str := split_from [] s.

(** [s.lstrip()], [s.rstrip()], [s.strip()] *)
Fixpoint lstrip (s : str) : str :=
  match s with
  | [] => []
  | c :: s' => if isspace c then lstrip s' else s
  end.

Definition rstrip (s : str) : str := rev (lstrip (rev s)).

Definition strip (s : str) : str := rstrip (lstrip s).

(** Truth value of a [str]: [not s] holds of the empty string only. *)
Definition is_empty (s : str) : bool :=
  match s with [] => true | _ => false end.

(** ** Python lists *)

(** [len(l)], an [int]. *)
Definition len {A} (l : list A) : Z := Z.of_nat (length l).

(** A slice bound brought into [0 .. len]: negative bounds count from
    the end of the list. *)
Definition clamp (n i : Z) : Z :=
  if i <? 0 then Z.max (i + n) 0 else Z.min i n.

(** [l[lo:hi]] *)
Definition slice {A} (l : list A) (lo hi : Z) : list A :=
  let a := clamp (len l) lo in
  let b := clamp (len l) hi in
  firstn (Z.to_nat (b - a)) (skipn (Z.to_nat a) l).

(** ** The segmenter *)

(** An element of [episodes]: the pair [(idx, episode_text)]. *)
Definition episode := (Z * str)%type.

(** The [while] loop of [split_text].  Nothing bounds the number of its
    iterations when [words_per_episode] is not positive, so the loop is
    run for at most [fuel] iterations; [None] says that the loop is
    still running when the fuel is spent. *)
Fixpoint split_loop (fuel : nat) (words : list str) (words_per_episode : Z)
    (start idx : Z) (episodes : list episode) : option (list episode) :=
  if start <? len words then
    match fuel with
    | O => None
    | S fuel' =>
        let end_ := Z.min (len words) (start + words_per_episode) in
        let episode_text := join [space] (slice words start end_) in
        split_loop fuel' words words_per_episode end_ (idx + 1)
                   (episodes ++ [(idx, episode_text)])
    end
  else Some episodes.

Definition split_text (fuel : nat) (full_text : str) (words_per_episode : Z)
    : option (list episode) :=
  let words := split full_text in
  split_loop fuel words words_per_episode 0 1 [].

(** ** Formatting *)

(** [str(n)] for an [int]. *)
Definition str_of_int (n : Z) : str :=
  lit (NilZero.string_of_int (Z.to_int n)).

(** [f"{n:02d}"]: the decimal digits of [n], filled with zeros between
    the sign and the digits up to a width of two characters. *)
Definition format_02d (n : Z) : str :=
  let sign := if n <? 0 then lit "-" else [] in
  let digits := lit (NilZero.string_of_uint (N.to_uint (Z.abs_N n))) in
  sign ++ repeat 48%N (2 - length sign - length digits) ++ digits.

(** The name of the episode file, [f"episode_{idx:02d}.mp3"]. *)
Definition episode_name (idx : Z) : str :=
  lit "episode_" ++ format_02d idx ++ lit ".mp3".

(** [out_dir / name] *)
Definition path_join (dir name : str) : str := dir ++ lit "/" ++ name.

Fixpoint str_eqb (a b : str) : bool :=
  match a, b with
  | [], [] => true
  | x :: a', y :: b' => N.eqb x y && str_eqb a' b'
  | _, _ => false
  end.

(** ** The run and what it does to the outside *)

(** An exception, by its message [str(e)]. *)
Definition Exn := str.

(** Calls that leave the program, in the order they are made.  A call
    that can raise carries what it raised. *)
Inductive Event :=
| LogInsert (line : str)                 (* log_widget.insert(tk.END, line) *)
| ShowError (title message : str)        (* messagebox.showerror *)
| ShowInfo (title message : str)         (* messagebox.showinfo *)
| ReadPdf (path : str)                   (* PdfReader(str(pdf_path)) *)
| Mkdir (path : str) (raised : option Exn)
| EdgeTts (text out_path : str) (raised : option Exn)
| Gtts (text out_path : str) (raised : option Exn).

(** What lies outside the program: the pages a PDF reader extracts, the
    directory that [pathlib] derives for the episodes, and whether
    creating the directory and saving the audio of a text raise. *)
Record Platform := {
  pdf_pages : str -> Exn + list str;
  podcast_dir : str -> str;
  mkdir : str -> option Exn;
  edge_save : str -> str -> option Exn;
  gtts_save : str -> str -> option Exn
}.

Inductive Result (A : Type) :=
| Ok (a : A)
| Raise (e : Exn)
| Running.
Arguments Ok {A} a.
Arguments Raise {A} e.
Arguments Running {A}.

(** A computation: the events it made and how it ended. *)
Definition M (A : Type) : Type := (list Event * Result A)%type.

Definition ret {A} (a : A) : M A := ([], Ok a).

Definition bind {A B} (m : M A) (k : A -> M B) : M B :=
  let '(tr, r) := m in
  match r with
  | Ok a => let '(tr', r') := k a in (tr ++ tr', r')
  | Raise e => (tr, Raise e)
  | Running => (tr, Running)
  end.

Notation "x <- m ;; k" := (bind m (fun x => k))
  (at level 61, m at next level, right associativity).
Notation "m ;;; k" := (bind m (fun _ => k))
  (at level 61, right associativity).

Definition emit (ev : Event) : M unit := ([ev], Ok tt).

(** A call that may raise. *)
Definition call (ev : option Exn -> Event) (raised : option Exn) : M unit :=
  match raised with
  | None => ([ev None], Ok tt)
  | Some e => ([ev (Some e)], Raise e)
  end.

(** [try: body except Exception as e: handler(e)] *)
Definition try_except {A} (body : M A) (handler : Exn -> M A) : M A :=
  let '(tr, r) := body in
  match r with
  | Raise e => let '(tr', r') := handler e in (tr ++ tr', r')
  | _ => (tr, r)
  end.

(** [for x in l: body(x)] *)
Fixpoint for_each {A} (l : list A) (body : A -> M unit) : M unit :=
  match l with
  | [] => ret tt
  | x :: l' => body x ;;; for_each l' body
  end.

(** [extract_text]: the text of the pages that have some, joined by
    blank lines. *)
Definition extract_text (P : Platform) (pdf_path : str) : M str :=
  emit (ReadPdf pdf_path) ;;;
  match pdf_pages P pdf_path with
  | inl e => ([], Raise e)
  | inr pages =>
      let text := filter (fun t => negb (is_empty t)) pages in
      ret (join [newline; newline] text)
  end.

(** The body of the [for] loop of [convert_pdf], for one episode.
    [log_widget.see] and [log_widget.update] only scroll and redraw the
    log; they are not among the events. *)
Definition convert_episode (P : Platform) (out_dir engine : str)
    (ep : episode) : M unit :=
  let '(idx, ep_text) := ep in
  let out_file := path_join out_dir (episode_name idx) in
  emit (LogInsert (lit "[tts] Generating " ++ episode_name idx ++ [newline])) ;;;
  if str_eqb engine (lit "edge-tts") then
    call (EdgeTts ep_text out_file) (edge_save P ep_text out_file)
  else if str_eqb engine (lit "gtts") then
    call (Gtts ep_text out_file) (gtts_save P ep_text out_file)
  else
    emit (LogInsert (lit "[error] Unknown engine " ++ engine ++ [newline])).

(** [convert_pdf].  [fuel] bounds the iterations of the loop of
    [split_text]; the run is [Running] when the loop does not end. *)
Definition convert_pdf (P : Platform) (fuel : nat) (pdf_path engine : str)
    (minutes : Z) : M unit :=
  try_except
    (emit (LogInsert (lit "[info] Reading " ++ pdf_path ++ [newline])) ;;;
     text <- extract_text P pdf_path ;;
     if is_empty (strip text) then
       emit (ShowError (lit "Error")
                       (lit "No text could be extracted from PDF."))
     else
       let words_per_episode := minutes * 180 in
       episodes <- match split_text fuel text words_per_episode with
                   | Some eps => ret eps
                   | None => ([], Running)
                   end ;;
       let out_dir := podcast_dir P pdf_path in
       call (Mkdir out_dir) (mkdir P out_dir) ;;;
       for_each episodes (convert_episode P out_dir engine) ;;;
       emit (ShowInfo (lit "Done")
                      (lit "Created " ++ str_of_int (len episodes)
                       ++ lit " MP3s in " ++ out_dir)))
    (fun e => emit (ShowError (lit "Error") e)).

(** ** Reading a run *)

(** The episode files that exist after the run: the output paths of the
    synthesis calls that did not raise. *)
Definition written (ev : Event) : list str :=
  match ev with
  | EdgeTts _ out None | Gtts _ out None => [out]
  | _ => []
  end.

Definition output_files (tr : list Event) : list str := flat_map written tr.

(** The synthesis calls of a run, each with its output path and whether
    it raised. *)
Definition attempt (ev : Event) : list (str * option Exn) :=
  match ev with
  | EdgeTts _ out r | Gtts _ out r => [(out, r)]
  | _ => []
  end.

Definition attempts (tr : list Event) : list (str * option Exn) :=
  flat_map attempt tr.

(** The texts handed to an engine, in the order of the calls. *)
Definition spoken_text (ev : Event) : list str :=
  match ev with
  | EdgeTts text _ _ | Gtts text _ _ => [text]
  | _ => []
  end.

Definition spoken (tr : list Event) : list str := flat_map spoken_text tr.

Definition is_mkdir (ev : Event) : bool :=
  match ev with Mkdir _ _ => true | _ => false end.

Definition is_error (ev : Event) : bool :=
  match ev with ShowError _ _ => true | _ => false end.

Definition is_done (ev : Event) : bool :=
  match ev with ShowInfo _ _ => true | _ => false end.

(** An episode is taken up by the loop when its progress line is logged. *)
Definition is_episode_start (ev : Event) : bool :=
  match ev with
  | LogInsert line =>
      str_eqb (firstn 17 line) (lit "[tts] Generating ")
  | _ => false
  end.

(** The two engines that the loop knows. *)
Definition known_engine (engine : str) : bool :=
  str_eqb engine (lit "edge-tts") || str_eqb engine (lit "gtts").

(** For a known engine: whether saving raises, and the event of the call,
    as the loop picks them. *)
Definition backend_save (P : Platform) (engine : str)
    : str -> str -> option Exn :=
  if str_eqb engine (lit "edge-tts") then edge_save P else gtts_save P.

Definition backend_call (engine : str) : str -> str -> option Exn -> Event :=
  if str_eqb engine (lit "edge-tts") then EdgeTts else Gtts.

Definition episode_file (out_dir : str) (ep : episode) : str :=
  path_join out_dir (episode_name (fst ep)).

Definition episode_raises (P : Platform) (out_dir engine : str)
    (ep : episode) : option Exn :=
  backend_save P engine (snd ep) (episode_file out_dir ep).

(** The events of one episode whose synthesis call ended with [r]. *)
Definition episode_events (out_dir engine : str) (r : option Exn)
    (ep : episode) : list Event :=
  [LogInsert (lit "[tts] Generating " ++ episode_name (fst ep) ++ [newline]);
   backend_call engine (snd ep) (episode_file out_dir ep) r].

(** The events of one episode under an engine that the loop does not
    know. *)
Definition unknown_events (engine : str) (ep : episode) : list Event :=
  [LogInsert (lit "[tts] Generating " ++ episode_name (fst ep) ++ [newline]);
   LogInsert (lit "[error] Unknown engine " ++ engine ++ [newline])].

(** What every run starts with. *)
Definition reading (pdf_path : str) : list Event :=
  [LogInsert (lit "[info] Reading " ++ pdf_path ++ [newline]);
   ReadPdf pdf_path].

Definition done_message (n : Z) (out_dir : str) : str :=
  lit "Created " ++ str_of_int n ++ lit " MP3s in " ++ out_dir.

(** The run stopped with an error before it took up any episode and
    before it created the directory. *)
Definition rejected_early (tr : list Event) : Prop :=
  existsb is_error tr = true /\
  existsb is_episode_start tr = false /\
  existsb is_mkdir tr = false.

(** The number of words of a text. *)
Definition word_count (t : str) : Z := len (split t).

(** ** Sample platforms and texts *)

(** A platform on which nothing raises: the PDF has the given pages. *)
Definition quiet (pages : list str) : Platform := {|
  pdf_pages := fun _ => inr pages;
  podcast_dir := fun _ => lit "doc_podcast";
  mkdir := fun _ => None;
  edge_save := fun _ _ => None;
  gtts_save := fun _ _ => None
|}.

(** As [quiet], but saving the second episode raises. *)
Definition second_fails (pages : list str) : Platform := {|
  pdf_pages := fun _ => inr pages;
  podcast_dir := fun _ => lit "doc_podcast";
  mkdir := fun _ => None;
  edge_save := fun _ out =>
    if str_eqb out (lit "doc_podcast/episode_02.mp3")
    then Some (lit "connection reset") else None;
  gtts_save := fun _ out =>
    if str_eqb out (lit "doc_podcast/episode_02.mp3")
    then Some (lit "connection reset") else None
|}.

(** A text of [n] words. *)
Definition sample_text (n : nat) : str :=
  join [space] (repeat (lit "word") n).

(** ** The Convert button *)



Definition is_edge (ev : Event) : bool :=
  match ev with EdgeTts _ _ _ => true | _ => false end.

Definition is_gtts (ev : Event) : bool :=
  match ev with Gtts _ _ _ => true | _ => false end.

Definition is_read (ev : Event) : bool :=
  match ev with ReadPdf _ => true | _ => false end.

(** ** The ways a run can go *)

(** The ways the loop over the episodes can go. *)
Inductive LoopCase (P : Platform) (out_dir engine : str)
    (eps : list episode) : M unit -> Prop :=
| LoopUnknown :
    known_engine engine = false ->
    LoopCase P out_dir engine eps
      (flat_map (unknown_events engine) eps, Ok tt)
| LoopDone :
    known_engine engine = true ->
    Forall (fun ep => episode_raises P out_dir engine ep = None) eps ->
    LoopCase P out_dir engine eps
      (flat_map (episode_events out_dir engine None) eps, Ok tt)
| LoopRaised pre ep post e :
    known_engine engine = true ->
    eps = pre ++ ep :: post ->
    Forall (fun ep => episode_raises P out_dir engine ep = None) pre ->
    episode_raises P out_dir engine ep = Some e ->
    LoopCase P out_dir engine eps
      (flat_map (episode_events out_dir engine None) pre
         ++ episode_events out_dir engine (Some e) ep,
       Raise e).

(** The ways a run can go. *)
Inductive RunCase (P : Platform) (fuel : nat) (pdf_path engine : str)
    (minutes : Z) : M unit -> Prop :=
| RunReaderRaised e :
    pdf_pages P pdf_path = inl e ->
    RunCase P fuel pdf_path engine minutes
      (reading pdf_path ++ [ShowError (lit "Error") e], Ok tt)
| RunNoText text :
    snd (extract_text P pdf_path) = Ok text ->
    is_empty (strip text) = true ->
    RunCase P fuel pdf_path engine minutes
      (reading pdf_path ++
         [ShowError (lit "Error")
                    (lit "No text could be extracted from PDF.")],
       Ok tt)
| RunSegmenting text :
    snd (extract_text P pdf_path) = Ok text ->
    is_empty (strip text) = false ->
    split_text fuel text (minutes * 180) = None ->
    RunCase P fuel pdf_path engine minutes (reading pdf_path, Running)
| RunMkdirRaised text eps e :
    snd (extract_text P pdf_path) = Ok text ->
    is_empty (strip text) = false ->
    split_text fuel text (minutes * 180) = Some eps ->
    mkdir P (podcast_dir P pdf_path) = Some e ->
    RunCase P fuel pdf_path engine minutes
      (reading pdf_path ++
         [Mkdir (podcast_dir P pdf_path) (Some e);
          ShowError (lit "Error") e],
       Ok tt)
| RunLoop text eps loop :
    snd (extract_text P pdf_path) = Ok text ->
    is_empty (strip text) = false ->
    split_text fuel text (minutes * 180) = Some eps ->
    mkdir P (podcast_dir P pdf_path) = None ->
    LoopCase P (podcast_dir P pdf_path) engine eps loop ->
    RunCase P fuel pdf_path engine minutes
      (reading pdf_path ++ Mkdir (podcast_dir P pdf_path) None :: fst loop ++
         match snd loop with
         | Ok _ => [ShowInfo (lit "Done")
                      (done_message (len eps) (podcast_dir P pdf_path))]
         | Raise e => [ShowError (lit "Error") e]
         | Running => []
         end,
       Ok tt).

(** ** Consecutive groups of a list *)

(** The groups of [n] consecutive elements of [l], the last one shorter
    when [n] does not divide the length.  It is what the loop of
    [split_text] slices out of [words] when [n] is positive
    ([split_loop_groups] below); at most [fuel] groups are taken. *)
Fixpoint groups_upto {A} (fuel n : nat) (l : list A) : list (list A) :=
  match fuel with
  | O => []
  | S fuel' =>
      match l with
      | [] => []
      | _ => firstn n l :: groups_upto fuel' n (skipn n l)
      end
  end.

Definition groups {A} (n : nat) (l : list A) : list (list A) :=
  groups_upto (length l) n l.

(** The pairs [(idx, t0); (idx + 1, t1); ...]. *)
Fixpoint number (idx : Z) (texts : list str) : list episode :=
  match texts with
  | [] => []
  | t :: ts => (idx, t) :: number (idx + 1) ts
  end.

(** A word as [str.split] returns them: not empty, no whitespace. *)
Definition is_word (w : str) : Prop :=
  w <> [] /\ existsb isspace w = false.

(** ** Lemmas on lists *)

Section Groups.
Context {A : Type}.
Variable n : nat.
Hypothesis Hn : (0 < n)%nat.
Implicit Types (l : list A) (fuel : nat).

Lemma groups_upto_fuel fuel1 : forall fuel2 l,
  (length l <= fuel1)%nat -> (length l <= fuel2)%nat ->
  groups_upto fuel1 n l = groups_upto fuel2 n l.
Proof.
  induction fuel1 as [|fuel1 IH]; intros fuel2 l H1 H2.
  - destruct l; [|simpl in H1; lia]. destruct fuel2; reflexivity.
  - destruct l as [|a l']; [destruct fuel2; reflexivity|].
    destruct fuel2 as [|fuel2]; [simpl in H2; lia|].
    cbn [groups_upto]. f_equal.
    apply IH; auto; rewrite length_skipn; cbn [length] in *; lia.
Qed.

Lemma groups_upto_enough fuel l :
  (length l <= fuel)%nat ->
  groups_upto fuel n l = groups n l.
Proof.
  intros Hle. apply groups_upto_fuel; auto.
Qed.

Lemma groups_nil : groups n (@nil A) = [].
Proof. reflexivity. Qed.

Lemma groups_step l :
  l <> [] ->
  groups n l = firstn n l :: groups n (skipn n l).
Proof.
  intros Hl. destruct l as [|a l']; [congruence|].
  unfold groups at 1. cbn [length groups_upto]. f_equal.
  apply groups_upto_enough; auto.
  rewrite length_skipn. cbn [length]. lia.
Qed.

(** Induction along the groups of a list. *)
Lemma groups_ind (Q : list A -> Prop) :
  Q [] ->
  (forall l, l <> [] -> Q (skipn n l) -> Q l) ->
  forall l, Q l.
Proof.
  intros Hnil Hstep l.
  remember (length l) as k eqn:Hk. revert l Hk.
  induction k as [k IH] using lt_wf_ind; intros l Hk.
  destruct l as [|a l']; [exact Hnil|].
  apply Hstep; [discriminate|].
  apply (IH (length (skipn n (a :: l')))); auto.
  rewrite length_skipn. cbn [length] in *. lia.
Qed.

Lemma concat_groups l : concat (groups n l) = l.
Proof.
  induction l as [|l Hl IH] using groups_ind; auto.
  rewrite groups_step by auto. simpl. rewrite IH.
  apply firstn_skipn.
Qed.

Lemma groups_nonempty l :
  Forall (fun g => g <> []) (groups n l).
Proof.
  induction l as [|l Hl IH] using groups_ind.
  - constructor.
  - rewrite groups_step by auto. constructor; auto.
    destruct l; [congruence|]. destruct n; [lia|discriminate].
Qed.

Lemma groups_Forall l (Q : A -> Prop) :
  Forall Q l -> Forall (Forall Q) (groups n l).
Proof.
  induction l as [|l Hl IH] using groups_ind; intros HQ.
  - constructor.
  - rewrite groups_step by auto. constructor.
    + rewrite <- (firstn_skipn n l) in HQ. apply Forall_app in HQ. tauto.
    + apply IH. rewrite <- (firstn_skipn n l) in HQ.
      apply Forall_app in HQ. tauto.
Qed.

Lemma groups_small l :
  l <> [] -> (length l <= n)%nat -> groups n l = [l].
Proof.
  intros Hl Hle. rewrite groups_step by auto.
  rewrite firstn_all2 by auto. rewrite skipn_all2 by auto. reflexivity.
Qed.

(** All groups but the last are full; the last holds the rest. *)
Lemma groups_sizes l init last :
  groups n l = init ++ [last] ->
  Forall (fun g => length g = n) init /\
  (1 <= length last <= n)%nat.
Proof.
  revert init.
  induction l as [|l Hl IH] using groups_ind; intros init E.
  - rewrite groups_nil in E. destruct init; discriminate.
  - rewrite groups_step in E by auto.
    destruct (Nat.le_gt_cases (length l) n) as [Hs|Hb].
    + rewrite skipn_all2 in E by auto. rewrite groups_nil in E.
      destruct init as [|g [|g' init]]; try discriminate.
      injection E as E. subst last. split; [constructor|].
      rewrite firstn_all2 by auto.
      destruct l; [congruence|cbn [length] in *; lia].
    + destruct init as [|g init].
      * simpl in E. injection E as _ E.
        assert (Hne : skipn n l <> []).
        { intro H0. apply (f_equal (@length A)) in H0.
          rewrite length_skipn in H0. cbn [length] in H0. lia. }
        rewrite groups_step in E by auto. discriminate.
      * simpl in E. injection E as Eg E. subst g.
        destruct (IH init E) as [Hi Hlast]. split; auto.
        constructor; auto. rewrite length_firstn. lia.
Qed.

(** The number of groups is the length divided by [n], rounded up. *)
Lemma length_groups l :
  Z.of_nat (length (groups n l))
  = (Z.of_nat (length l) + Z.of_nat n - 1) / Z.of_nat n.
Proof.
  induction l as [|l Hl IH] using groups_ind.
  - simpl. symmetry. apply Z.div_small. lia.
  - rewrite groups_step by auto. cbn [length].
    rewrite Nat2Z.inj_succ, IH, length_skipn.
    destruct (Nat.le_gt_cases (length l) n) as [Hs|Hb].
    + replace (length l - n)%nat with 0%nat by lia.
      assert (0 < length l)%nat by (destruct l; [congruence|cbn [length]; lia]).
      rewrite (Z.div_small (Z.of_nat 0 + _ - 1)) by lia.
      apply Z.div_unique with (r := Z.of_nat (length l) - 1); lia.
    + rewrite Nat2Z.inj_sub by lia.
      replace (Z.of_nat (length l) + Z.of_nat n - 1)
        with ((Z.of_nat (length l) - Z.of_nat n + Z.of_nat n - 1)
              + 1 * Z.of_nat n) by lia.
      rewrite Z.div_add by lia. lia.
Qed.
End Groups.

(** ** Lemmas on [join], [split] and [strip] *)

Lemma join_cons sep p ps :
  ps <> [] -> join sep (p :: ps) = p ++ sep ++ join sep ps.
Proof. destruct ps; [congruence|reflexivity]. Qed.

Lemma join_app sep l1 l2 :
  l1 <> [] -> l2 <> [] ->
  join sep (l1 ++ l2) = join sep l1 ++ sep ++ join sep l2.
Proof.
  intros H1 H2. induction l1 as [|p l1 IH]; [congruence|].
  destruct l1 as [|q l1].
  - simpl app. rewrite join_cons by auto. reflexivity.
  - change ((p :: q :: l1) ++ l2) with (p :: ((q :: l1) ++ l2)).
    rewrite join_cons by discriminate.
    rewrite IH by discriminate.
    rewrite (join_cons sep p (q :: l1)) by discriminate.
    now rewrite <- !app_assoc.
Qed.

Lemma join_concat sep (gs : list (list str)) :
  Forall (fun g => g <> []) gs ->
  join sep (map (join sep) gs) = join sep (concat gs).
Proof.
  induction 1 as [|g gs Hg Hgs IH]; [reflexivity|].
  destruct gs as [|g' gs].
  - simpl. now rewrite app_nil_r.
  - cbn [map concat] in *. rewrite join_cons by discriminate.
    rewrite IH. rewrite (join_app sep g (g' ++ concat gs)); auto.
    inversion Hgs; subst. destruct g'; [congruence|simpl; discriminate].
Qed.

Lemma forallb_rev {A} (f : A -> bool) l :
  forallb f (rev l) = forallb f l.
Proof.
  induction l as [|a l IH]; [reflexivity|].
  simpl. rewrite forallb_app, IH. simpl. rewrite andb_true_r.
  apply andb_comm.
Qed.

Lemma existsb_rev {A} (f : A -> bool) l :
  existsb f (rev l) = existsb f l.
Proof.
  induction l as [|a l IH]; [reflexivity|].
  simpl. rewrite existsb_app, IH. simpl. rewrite orb_false_r.
  apply orb_comm.
Qed.

Lemma isspace_space : isspace space = true.
Proof. reflexivity. Qed.

Lemma split_from_run w : forall cur rest,
  existsb isspace w = false ->
  split_from cur (w ++ rest) = split_from (rev w ++ cur) rest.
Proof.
  induction w as [|c w IH]; intros cur rest H; [reflexivity|].
  simpl in H. apply orb_false_iff in H. destruct H as [Hc Hw].
  simpl. rewrite Hc, IH by auto. now rewrite <- app_assoc.
Qed.

Lemma split_from_word w rest :
  is_word w ->
  split_from [] (w ++ space :: rest) = w :: split_from [] rest.
Proof.
  intros [Hne Hw]. rewrite split_from_run by auto.
  rewrite app_nil_r. cbn [split_from]. rewrite isspace_space.
  destruct (rev w) eqn:E.
  - apply (f_equal (@rev char)) in E. rewrite rev_involutive in E.
    simpl in E. congruence.
  - rewrite <- E, rev_involutive. reflexivity.
Qed.

Lemma split_from_last w :
  is_word w -> split_from [] w = [w].
Proof.
  intros [Hne Hw]. rewrite <- (app_nil_r w) at 1.
  rewrite split_from_run by auto. rewrite app_nil_r. cbn [split_from].
  destruct (rev w) eqn:E.
  - apply (f_equal (@rev char)) in E. rewrite rev_involutive in E.
    simpl in E. congruence.
  - rewrite <- E, rev_involutive. reflexivity.
Qed.

(** Splitting the words joined by single spaces gives the words back. *)
Lemma split_join ws :
  Forall is_word ws -> split (join [space] ws) = ws.
Proof.
  unfold split. induction 1 as [|w ws Hw Hws IH]; [reflexivity|].
  destruct ws as [|w' ws].
  - simpl. now apply split_from_last.
  - rewrite join_cons by discriminate. cbn [app].
    rewrite split_from_word by auto. now rewrite IH.
Qed.

Lemma split_from_words s : forall cur,
  existsb isspace cur = false -> Forall is_word (split_from cur s).
Proof.
  assert (Hrev : forall cur, cur <> [] -> existsb isspace cur = false ->
                             is_word (rev cur)).
  { intros cur Hne Hc. split.
    - intro E. apply (f_equal (@rev char)) in E.
      rewrite rev_involutive in E. simpl in E. congruence.
    - rewrite existsb_rev. exact Hc. }
  induction s as [|c s IH]; intros cur Hc; simpl.
  - destruct cur; constructor; [apply Hrev; [discriminate|auto]|constructor].
  - destruct (isspace c) eqn:Ec.
    + destruct cur.
      * apply IH. reflexivity.
      * constructor; [apply Hrev; [discriminate|auto]|apply IH; reflexivity].
    + apply IH. simpl. now rewrite Ec.
Qed.

Lemma split_words s : Forall is_word (split s).
Proof. apply split_from_words. reflexivity. Qed.

Lemma split_from_nil_iff s : forall cur,
  split_from cur s = [] <-> cur = [] /\ forallb isspace s = true.
Proof.
  induction s as [|c s IH]; intros cur; simpl.
  - destruct cur; split; intros H; try discriminate; auto.
    destruct H; discriminate.
  - destruct (isspace c) eqn:Ec; simpl.
    + destruct cur.
      * rewrite IH. tauto.
      * split; [discriminate|intros [? _]; discriminate].
    + rewrite IH. split; [intros [? _]; discriminate|intros [_ ?]; discriminate].
Qed.

(** [s.split()] is empty exactly when [s] has whitespace only. *)
Lemma split_nil_iff s : split s = [] <-> forallb isspace s = true.
Proof. unfold split. rewrite split_from_nil_iff. tauto. Qed.

Lemma lstrip_nil_iff s : lstrip s = [] <-> forallb isspace s = true.
Proof.
  induction s as [|c s IH]; simpl; [tauto|].
  destruct (isspace c); simpl; [exact IH|].
  split; discriminate.
Qed.

Lemma forallb_lstrip s :
  forallb isspace (lstrip s) = forallb isspace s.
Proof.
  induction s as [|c s IH]; simpl; [reflexivity|].
  destruct (isspace c) eqn:Ec; simpl; [exact IH|now rewrite Ec].
Qed.

Lemma is_empty_iff s : is_empty s = true <-> s = [].
Proof. destruct s; simpl; split; congruence. Qed.

Lemma is_empty_rev s : is_empty (rev s) = is_empty s.
Proof.
  destruct s as [|c s]; [reflexivity|].
  simpl. destruct (rev s); reflexivity.
Qed.

(** [not s.strip()] holds exactly when [s] has whitespace only. *)
Lemma strip_empty_iff s :
  is_empty (strip s) = true <-> forallb isspace s = true.
Proof.
  unfold strip, rstrip.
  rewrite is_empty_rev, is_empty_iff, lstrip_nil_iff.
  rewrite forallb_rev, forallb_lstrip. tauto.
Qed.

Lemma strip_nonempty_split s :
  is_empty (strip s) = false <-> split s <> [].
Proof.
  rewrite split_nil_iff, <- strip_empty_iff.
  destruct (is_empty (strip s)); split; congruence.
Qed.

(** ** The loop of [split_text] *)

Lemma len_nonneg {A} (l : list A) : 0 <= len l.
Proof. unfold len. lia. Qed.

Lemma clamp_inside n i : 0 <= i <= n -> clamp n i = i.
Proof. unfold clamp. intros H. destruct (i <? 0) eqn:E; lia. Qed.

Lemma slice_inside {A} (l : list A) lo hi :
  0 <= lo <= hi -> hi <= len l ->
  slice l lo hi = firstn (Z.to_nat (hi - lo)) (skipn (Z.to_nat lo) l).
Proof.
  intros H1 H2. unfold slice. now rewrite !clamp_inside by lia.
Qed.

Lemma split_loop_eq fuel words w start idx eps :
  split_loop fuel words w start idx eps =
  if start <? len words then
    match fuel with
    | O => None
    | S fuel' =>
        split_loop fuel' words w (Z.min (len words) (start + w)) (idx + 1)
          (eps ++ [(idx, join [space]
                           (slice words start
                                  (Z.min (len words) (start + w))))])
    end
  else Some eps.
Proof. destruct fuel; reflexivity. Qed.

(** One iteration with a positive budget takes the next group off the
    words that are left. *)
Lemma slice_next_group (words : list str) w start :
  0 < w -> 0 <= start < len words ->
  let end_ := Z.min (len words) (start + w) in
  let rest := skipn (Z.to_nat start) words in
  rest <> [] /\
  slice words start end_ = firstn (Z.to_nat w) rest /\
  skipn (Z.to_nat end_) words = skipn (Z.to_nat w) rest.
Proof.
  intros Hw Hs end_ rest. unfold len in *.
  assert (Hlen : length rest = (length words - Z.to_nat start)%nat)
    by apply length_skipn.
  split; [|split].
  - intro E. rewrite E in Hlen. simpl in Hlen. lia.
  - rewrite slice_inside by (unfold len; lia). fold rest.
    destruct (Z.le_gt_cases (start + w) (Z.of_nat (length words))).
    + f_equal. lia.
    + rewrite !firstn_all2 by lia. reflexivity.
  - unfold rest. rewrite skipn_skipn.
    destruct (Z.le_gt_cases (start + w) (Z.of_nat (length words))).
    + f_equal. lia.
    + rewrite !skipn_all2 by lia. reflexivity.
Qed.

(** With a positive budget and enough fuel the loop returns, and what it
    returns are the groups of the remaining words, joined and numbered. *)
Lemma split_loop_groups fuel : forall words w start idx eps,
  0 < w -> 0 <= start <= len words ->
  (length words - Z.to_nat start <= fuel)%nat ->
  split_loop fuel words w start idx eps =
  Some (eps ++ number idx
          (map (join [space])
               (groups (Z.to_nat w) (skipn (Z.to_nat start) words)))).
Proof.
  induction fuel as [|fuel IH]; intros words w start idx eps Hw Hs Hf;
    rewrite split_loop_eq; destruct (start <? len words) eqn:E.
  - unfold len in *. lia.
  - rewrite skipn_all2 by (unfold len in *; lia).
    rewrite groups_nil. simpl. now rewrite app_nil_r.
  - destruct (slice_next_group words w start Hw) as (Hne & Hslice & Hskip);
      [lia|].
    rewrite IH; unfold len in *; try lia.
    rewrite Hslice, Hskip.
    rewrite (groups_step (Z.to_nat w)) with
      (l := skipn (Z.to_nat start) words) by (auto; lia).
    cbn [map number]. now rewrite <- app_assoc.
  - rewrite skipn_all2 by (unfold len in *; lia).
    rewrite groups_nil. simpl. now rewrite app_nil_r.
Qed.

(** With a budget that is not positive the loop never leaves its first
    position. *)
Lemma split_loop_stuck fuel : forall words w start idx eps,
  w <= 0 -> start <= 0 -> words <> [] ->
  split_loop fuel words w start idx eps = None.
Proof.
  induction fuel as [|fuel IH]; intros words w start idx eps Hw Hs Hne;
    rewrite split_loop_eq;
    assert (Hl : 0 < len words)
      by (destruct words; [congruence|unfold len; cbn [length]; lia]);
    destruct (start <? len words) eqn:E; try lia; auto.
  apply IH; auto. lia.
Qed.

Lemma split_text_groups fuel t w :
  0 < w -> (length (split t) <= fuel)%nat ->
  split_text fuel t w =
  Some (number 1 (map (join [space]) (groups (Z.to_nat w) (split t)))).
Proof.
  intros Hw Hf. unfold split_text.
  pose proof (len_nonneg (split t)).
  rewrite split_loop_groups by (simpl; lia). reflexivity.
Qed.

Lemma map_fst_number texts : forall idx,
  map fst (number idx texts)
  = map (fun i => idx + Z.of_nat i) (seq 0 (length texts)).
Proof.
  induction texts as [|t ts IH]; intros idx; [reflexivity|].
  cbn [number map length seq]. rewrite IH, <- seq_shift, map_map.
  rewrite Z.add_0_r. f_equal. apply map_ext. intros i. lia.
Qed.

Lemma map_snd_number texts : forall idx, map snd (number idx texts) = texts.
Proof.
  induction texts as [|t ts IH]; intros idx; [reflexivity|].
  simpl. now rewrite IH.
Qed.

Lemma length_number texts : forall idx,
  length (number idx texts) = length texts.
Proof.
  induction texts as [|t ts IH]; intros idx; [reflexivity|].
  simpl. now rewrite IH.
Qed.

(** ** The run *)

Lemma str_eqb_refl a : str_eqb a a = true.
Proof. induction a as [|c a IH]; simpl; [|rewrite N.eqb_refl]; auto. Qed.

Lemma str_eqb_eq a : forall b, str_eqb a b = true <-> a = b.
Proof.
  induction a as [|c a IH]; intros [|d b]; simpl; split; intros H;
    try congruence; try discriminate.
  - apply andb_true_iff in H. destruct H as [Hc Hab].
    apply N.eqb_eq in Hc. apply IH in Hab. congruence.
  - injection H as -> ->. now rewrite N.eqb_refl, str_eqb_refl.
Qed.

Lemma bind_ok {A B} tr (a : A) (k : A -> M B) :
  bind (tr, Ok a) k = (tr ++ fst (k a), snd (k a)).
Proof. unfold bind. now destruct (k a). Qed.

Lemma bind_emit {B} ev (k : unit -> M B) :
  bind (emit ev) k = (ev :: fst (k tt), snd (k tt)).
Proof. unfold emit. now rewrite bind_ok. Qed.

Lemma for_each_app {A} (body : A -> M unit) l1 : forall l2,
  for_each (l1 ++ l2) body = (for_each l1 body ;;; for_each l2 body).
Proof.
  induction l1 as [|x l1 IH]; intros l2.
  - cbn [app for_each]. unfold ret. rewrite bind_ok.
    now destruct (for_each l2 body).
  - cbn [app for_each]. rewrite IH. unfold bind.
    destruct (body x) as [tr [[]|e|]]; auto.
    destruct (for_each l1 body) as [tr1 [[]|e1|]]; auto.
    destruct (for_each l2 body) as [tr2 r2]. now rewrite app_assoc.
Qed.

Lemma convert_episode_unknown P out_dir engine ep :
  known_engine engine = false ->
  convert_episode P out_dir engine ep = (unknown_events engine ep, Ok tt).
Proof.
  unfold known_engine. intros H. apply orb_false_iff in H.
  destruct H as [H1 H2]. destruct ep as [idx text].
  unfold convert_episode. now rewrite H1, H2.
Qed.

Lemma convert_episode_known P out_dir engine ep :
  known_engine engine = true ->
  convert_episode P out_dir engine ep =
  (episode_events out_dir engine (episode_raises P out_dir engine ep) ep,
   match episode_raises P out_dir engine ep with
   | None => Ok tt
   | Some e => Raise e
   end).
Proof.
  unfold known_engine, episode_raises, episode_events, backend_save,
    backend_call, episode_file.
  intros H. destruct ep as [idx text]. unfold convert_episode. cbn [fst snd].
  destruct (str_eqb engine (lit "edge-tts")) eqn:E1.
  - destruct (edge_save P text _); reflexivity.
  - simpl in H. rewrite H. destruct (gtts_save P text _); reflexivity.
Qed.

(** Under an unknown engine the loop visits every episode and calls no
    engine. *)
Lemma for_each_unknown P out_dir engine eps :
  known_engine engine = false ->
  for_each eps (convert_episode P out_dir engine)
  = (flat_map (unknown_events engine) eps, Ok tt).
Proof.
  intros H. induction eps as [|ep eps IH]; [reflexivity|].
  cbn [for_each flat_map]. rewrite IH, convert_episode_unknown by auto.
  reflexivity.
Qed.

(** While no call raises, the loop goes on. *)
Lemma for_each_ok P out_dir engine eps :
  known_engine engine = true ->
  Forall (fun ep => episode_raises P out_dir engine ep = None) eps ->
  for_each eps (convert_episode P out_dir engine)
  = (flat_map (episode_events out_dir engine None) eps, Ok tt).
Proof.
  intros H. induction 1 as [|ep eps Hep Heps IH]; [reflexivity|].
  cbn [for_each flat_map]. rewrite IH, convert_episode_known by auto.
  rewrite Hep. reflexivity.
Qed.

(** The first call that raises ends the loop. *)
Lemma for_each_raise P out_dir engine pre ep post e :
  known_engine engine = true ->
  Forall (fun ep => episode_raises P out_dir engine ep = None) pre ->
  episode_raises P out_dir engine ep = Some e ->
  for_each (pre ++ ep :: post) (convert_episode P out_dir engine)
  = (flat_map (episode_events out_dir engine None) pre
       ++ episode_events out_dir engine (Some e) ep,
     Raise e).
Proof.
  intros H Hpre Hep. rewrite for_each_app, for_each_ok by auto.
  cbn [for_each]. rewrite convert_episode_known by auto. rewrite Hep.
  reflexivity.
Qed.

Lemma extract_text_events P pdf_path :
  fst (extract_text P pdf_path) = [ReadPdf pdf_path].
Proof.
  unfold extract_text. rewrite bind_emit.
  destruct (pdf_pages P pdf_path); reflexivity.
Qed.

Lemma extract_text_ok P pdf_path text :
  snd (extract_text P pdf_path) = Ok text ->
  extract_text P pdf_path = ([ReadPdf pdf_path], Ok text).
Proof.
  intros H. rewrite <- H, <- (extract_text_events P pdf_path).
  now destruct (extract_text P pdf_path).
Qed.

(** The run up to the loop over the episodes, for a text that has words
    and is segmented into [eps], when the directory can be created. *)
Lemma convert_pdf_loop P fuel pdf_path engine minutes text eps :
  snd (extract_text P pdf_path) = Ok text ->
  is_empty (strip text) = false ->
  split_text fuel text (minutes * 180) = Some eps ->
  mkdir P (podcast_dir P pdf_path) = None ->
  let out_dir := podcast_dir P pdf_path in
  let loop := for_each eps (convert_episode P out_dir engine) in
  convert_pdf P fuel pdf_path engine minutes =
  (reading pdf_path ++ Mkdir out_dir None :: fst loop ++
     match snd loop with
     | Ok _ => [ShowInfo (lit "Done") (done_message (len eps) out_dir)]
     | Raise e => [ShowError (lit "Error") e]
     | Running => []
     end,
   match snd loop with Running => Running | _ => Ok tt end).
Proof.
  intros Hx Hne Hs Hm out_dir loop.
  unfold convert_pdf. rewrite (extract_text_ok _ _ _ Hx).
  cbn [bind emit]. rewrite Hne, Hs, Hm.
  cbn [bind ret call]. fold out_dir. fold loop.
  unfold reading, done_message.
  destruct loop as [tr [[]|e|]]; cbn; rewrite ?app_nil_r; reflexivity.
Qed.

(** With a budget that is not positive and a text that has words, the
    run gets as far as the segmenter and stays there. *)
Lemma convert_pdf_stuck P fuel pdf_path engine minutes text :
  snd (extract_text P pdf_path) = Ok text ->
  is_empty (strip text) = false ->
  minutes <= 0 ->
  convert_pdf P fuel pdf_path engine minutes = (reading pdf_path, Running).
Proof.
  intros Hx Hne Hm.
  assert (Hs : split_text fuel text (minutes * 180) = None).
  { unfold split_text. apply split_loop_stuck; try lia.
    now apply strip_nonempty_split. }
  unfold convert_pdf. rewrite (extract_text_ok _ _ _ Hx).
  cbn [bind emit]. rewrite Hne, Hs. reflexivity.
Qed.

(** A text without words ends the run with the error dialog, whatever
    the engine and the minutes. *)
Lemma convert_pdf_blank P fuel pdf_path engine minutes text :
  snd (extract_text P pdf_path) = Ok text ->
  is_empty (strip text) = true ->
  convert_pdf P fuel pdf_path engine minutes =
  (reading pdf_path ++
     [ShowError (lit "Error") (lit "No text could be extracted from PDF.")],
   Ok tt).
Proof.
  intros Hx He.
  unfold convert_pdf. rewrite (extract_text_ok _ _ _ Hx).
  cbn [bind emit]. rewrite He. reflexivity.
Qed.

(** *** What the events of the loop show *)

Lemma backend_call_cases engine :
  backend_call engine = EdgeTts \/ backend_call engine = Gtts.
Proof. unfold backend_call. destruct (str_eqb _ _); auto. Qed.

Lemma spoken_events out_dir engine r eps :
  spoken (flat_map (episode_events out_dir engine r) eps) = map snd eps.
Proof.
  unfold spoken. induction eps as [|ep eps IH]; [reflexivity|].
  cbn [flat_map map]. rewrite flat_map_app, IH.
  unfold episode_events.
  destruct (backend_call_cases engine) as [-> | ->]; reflexivity.
Qed.

Lemma attempts_events out_dir engine r eps :
  attempts (flat_map (episode_events out_dir engine r) eps)
  = map (fun ep => (episode_file out_dir ep, r)) eps.
Proof.
  unfold attempts. induction eps as [|ep eps IH]; [reflexivity|].
  cbn [flat_map map]. rewrite flat_map_app, IH.
  unfold episode_events.
  destruct (backend_call_cases engine) as [-> | ->]; reflexivity.
Qed.

Lemma output_files_events out_dir engine eps :
  output_files (flat_map (episode_events out_dir engine None) eps)
  = map (episode_file out_dir) eps.
Proof.
  unfold output_files. induction eps as [|ep eps IH]; [reflexivity|].
  cbn [flat_map map]. rewrite flat_map_app, IH.
  unfold episode_events.
  destruct (backend_call_cases engine) as [-> | ->]; reflexivity.
Qed.

Lemma output_files_raised out_dir engine e ep :
  output_files (episode_events out_dir engine (Some e) ep) = [].
Proof.
  unfold output_files, episode_events.
  destruct (backend_call_cases engine) as [-> | ->]; reflexivity.
Qed.

(** The events of an unknown engine hold no call. *)
Lemma unknown_events_silent {B} (f : Event -> list B) engine eps :
  (forall line, f (LogInsert line) = []) ->
  flat_map f (flat_map (unknown_events engine) eps) = [].
Proof.
  intros Hf. induction eps as [|ep eps IH]; [reflexivity|].
  cbn [flat_map]. rewrite flat_map_app, IH. unfold unknown_events.
  cbn [flat_map]. now rewrite !Hf.
Qed.

(** ** Properties of the segmenter *)

Lemma word_count_join g :
  Forall is_word g -> word_count (join [space] g) = len g.
Proof. intros H. unfold word_count. now rewrite split_join. Qed.

Lemma split_join_groups (gs : list (list str)) :
  Forall (Forall is_word) gs ->
  map split (map (join [space]) gs) = gs.
Proof.
  induction 1 as [|g gs Hg Hgs IH]; [reflexivity|].
  simpl. now rewrite IH, split_join.
Qed.

Lemma to_nat_pos w : 0 < w -> (0 < Z.to_nat w)%nat.
Proof. lia. Qed.

Create HintDb seg.
#[local] Hint Resolve to_nat_pos split_words : seg.

(** C4. For every text and every positive [words_per_episode] the
    segmenter returns, and its episodes lose nothing: their texts, joined
    in order by single spaces, are the words of the input joined by single
    spaces; read back as words, the joined text and the episodes one after
    the other give the words of the input, each once and in order. *)
Theorem split_text_lossless (t : str) (w : Z) (fuel : nat) :
  0 < w -> (length (split t) <= fuel)%nat ->
  exists eps,
    split_text fuel t w = Some eps /\
    join [space] (map snd eps) = join [space] (split t) /\
    split (join [space] (map snd eps)) = split t /\
    concat (map split (map snd eps)) = split t.
Proof.
  intros Hw Hf. rewrite split_text_groups by auto.
  eexists; split; [reflexivity|].
  rewrite map_snd_number.
  assert (Hj : join [space] (map (join [space]) (groups (Z.to_nat w) (split t)))
               = join [space] (split t)).
  { rewrite join_concat by auto using groups_nonempty with seg.
    rewrite concat_groups; auto with seg. }
  split; [exact Hj|]. split.
  - rewrite Hj. apply split_join, split_words.
  - rewrite split_join_groups by auto using groups_Forall with seg.
    apply concat_groups; auto with seg.
Qed.

Lemma split_text_lossless_witness :
  exists eps,
    split_text 5 (lit "  to be   or not to  ") 2 = Some eps /\
    join [space] (map snd eps) = lit "to be or not to".
Proof.
  destruct (split_text_lossless (lit "  to be   or not to  ") 2 5)
    as (eps & He & Hj & _); [lia | simpl; lia |].
  exists eps. split; [exact He | exact Hj].
Defined.

(** C5. For every text and every positive [words_per_episode] the
    segmenter terminates: as many iterations as the text has words are
    always enough, and each iteration of the loop moves [start] forward,
    so that the number of words still to take decreases strictly and
    stays non-negative. *)
Theorem split_text_terminates (t : str) (w : Z) :
  0 < w ->
  (forall fuel, (length (split t) <= fuel)%nat ->
     exists eps, split_text fuel t w = Some eps) /\
  (forall fuel start idx eps,
     start < len (split t) ->
     let end_ := Z.min (len (split t)) (start + w) in
     split_loop (S fuel) (split t) w start idx eps
     = split_loop fuel (split t) w end_ (idx + 1)
         (eps ++ [(idx, join [space] (slice (split t) start end_))]) /\
     0 <= len (split t) - end_ < len (split t) - start).
Proof.
  intros Hw. split.
  - intros fuel Hf. rewrite split_text_groups by auto. eauto.
  - intros fuel start idx eps Hs end_. split; [|unfold end_; lia].
    rewrite split_loop_eq.
    destruct (start <? len (split t)) eqn:E; [reflexivity|lia].
Qed.

Lemma split_text_terminates_witness :
  exists eps, split_text 3 (lit "one two three") 2 = Some eps.
Proof.
  destruct (split_text_terminates (lit "one two three") 2) as [H _]; [lia|].
  apply H. simpl. lia.
Defined.

(** C7, as stated, fails on a text without words: a budget of five words
    is at least its word count, and the segmenter returns no episode
    where C7 has exactly one. *)
Lemma blank_text_no_episode :
  0 < 5 /\ word_count (lit "  ") <= 5 /\
  split_text 1 (lit "  ") 5 = Some [] /\
  ~ (exists ep, split_text 1 (lit "  ") 5 = Some [ep]).
Proof.
  repeat split; try reflexivity; try (vm_compute; discriminate).
  intros [ep H]. vm_compute in H. discriminate.
Qed.

(** C7, amended. For every text and every positive [words_per_episode]:
    every episode but the last has exactly [words_per_episode] words, the
    last has between one and [words_per_episode]; and when the text has at
    least one word and no more than [words_per_episode], there is exactly
    one episode, numbered 1, which holds all the words. *)
Theorem split_text_sizes (t : str) (w : Z) (fuel : nat) :
  0 < w -> (length (split t) <= fuel)%nat ->
  exists eps,
    split_text fuel t w = Some eps /\
    (forall init last, eps = init ++ [last] ->
       Forall (fun ep => word_count (snd ep) = w) init /\
       1 <= word_count (snd last) <= w) /\
    (split t <> [] -> word_count t <= w ->
       eps = [(1, join [space] (split t))] /\
       split (join [space] (split t)) = split t).
Proof.
  intros Hw Hf. rewrite split_text_groups by auto.
  eexists; split; [reflexivity|]. split.
  - intros init last E.
    apply (f_equal (map snd)) in E.
    rewrite map_snd_number, map_app in E. cbn [map] in E.
    apply map_eq_app in E. destruct E as (gi & gl & Eg & Ei & El).
    destruct gl as [|g [|g' gl]]; try discriminate.
    cbn [map] in El. injection El as El.
    pose proof (groups_Forall (Z.to_nat w) (to_nat_pos w Hw) (split t)
                  is_word (split_words t)) as Hwords.
    rewrite Eg in Hwords. apply Forall_app in Hwords.
    destruct Hwords as [Hwi Hwl]. inversion Hwl as [|? ? Hwg _]; subst.
    destruct (groups_sizes (Z.to_nat w) (to_nat_pos w Hw) _ _ _ Eg)
      as [Hsi Hsl].
    split.
    + apply (proj1 (Forall_map snd (fun x => word_count x = w) init)).
      assert (HF : Forall (fun x : str => word_count x = w)
                          (map (join [space]) gi));
        [|rewrite Ei in HF; exact HF].
      apply Forall_map.
      clear - Hwi Hsi Hw. induction gi as [|g0 gi IH]; constructor;
        inversion Hwi; inversion Hsi; subst; auto.
      rewrite word_count_join by auto. unfold len. lia.
    + rewrite <- El, word_count_join by auto. unfold len. lia.
  - intros Hne Hle. unfold word_count, len in Hle.
    rewrite groups_small by (auto; lia). split; [reflexivity|].
    apply split_join, split_words.
Qed.

Lemma split_text_sizes_witness :
  exists eps,
    split_text 5 (lit "a b c d e") 2 = Some eps /\
    (forall init last, eps = init ++ [last] ->
       Forall (fun ep => word_count (snd ep) = 2) init /\
       1 <= word_count (snd last) <= 2).
Proof.
  destruct (split_text_sizes (lit "a b c d e") 2 5) as (eps & He & Hs & _);
    [lia | simpl; lia |].
  exists eps. split; [exact He | exact Hs].
Defined.

(** C8. For every text and every positive [words_per_episode] the
    indices of the episodes are 1, 2, ..., up to the number of episodes:
    they start at 1 and go up by one, so there is no gap and no
    duplicate. *)
Theorem split_text_indices (t : str) (w : Z) (fuel : nat) :
  0 < w -> (length (split t) <= fuel)%nat ->
  exists eps,
    split_text fuel t w = Some eps /\
    map fst eps = map Z.of_nat (seq 1 (length eps)).
Proof.
  intros Hw Hf. rewrite split_text_groups by auto.
  eexists; split; [reflexivity|].
  rewrite map_fst_number, length_number, <- seq_shift, map_map.
  apply map_ext. intros i. lia.
Qed.

Lemma split_text_indices_witness :
  exists eps,
    split_text 5 (lit "a b c d e") 2 = Some eps /\
    map fst eps = map Z.of_nat (seq 1 (length eps)).
Proof.
  apply split_text_indices; [lia | simpl; lia].
Defined.

(** C10. For every text and every positive [words_per_episode] the
    number of episodes is the number of words divided by
    [words_per_episode], rounded up.  The run takes
    [words_per_episode = minutes * 180]: the texts it hands to the engine
    are the episodes of the segmenter at that budget; and with one minute
    a text of 200 words gives exactly two episodes, of the first 180 words
    and of the remaining 20. *)
Theorem split_text_count (t : str) (w : Z) (fuel : nat) :
  0 < w -> (length (split t) <= fuel)%nat ->
  exists eps,
    split_text fuel t w = Some eps /\
    len eps = (word_count t + w - 1) / w /\
    (w = 1 * 180 -> word_count t = 200 ->
       exists t1 t2,
         eps = [(1, t1); (2, t2)] /\
         split t1 = firstn 180 (split t) /\ word_count t1 = 180 /\
         split t2 = skipn 180 (split t) /\ word_count t2 = 20) /\
    (forall P pdf_path engine minutes,
       w = minutes * 180 ->
       snd (extract_text P pdf_path) = Ok t ->
       mkdir P (podcast_dir P pdf_path) = None ->
       known_engine engine = true ->
       Forall (fun ep =>
                 episode_raises P (podcast_dir P pdf_path) engine ep = None)
              eps ->
       spoken (fst (convert_pdf P fuel pdf_path engine minutes))
       = map snd eps).
Proof.
  intros Hw Hf. pose proof (split_text_groups fuel t w Hw Hf) as Hs.
  rewrite Hs. eexists; split; [reflexivity|].
  pose proof (to_nat_pos w Hw) as Hn. split; [|split].
  - unfold len, word_count. rewrite length_number, length_map.
    rewrite (length_groups (Z.to_nat w) Hn). unfold len.
    now rewrite Z2Nat.id by lia.
  - intros -> H200. unfold word_count, len in H200.
    assert (Hl : length (split t) = 200%nat) by lia.
    assert (Hfst : length (firstn 180 (split t)) = 180%nat)
      by (rewrite length_firstn; lia).
    assert (Hsnd : length (skipn 180 (split t)) = 20%nat)
      by (rewrite length_skipn; lia).
    assert (Hwf : Forall is_word (firstn 180 (split t))).
    { pose proof (split_words t) as Hws.
      rewrite <- (firstn_skipn 180 (split t)) in Hws.
      apply Forall_app in Hws. tauto. }
    assert (Hwk : Forall is_word (skipn 180 (split t))).
    { pose proof (split_words t) as Hws.
      rewrite <- (firstn_skipn 180 (split t)) in Hws.
      apply Forall_app in Hws. tauto. }
    change (Z.to_nat (1 * 180)) with 180%nat in *.
    rewrite (groups_step 180) by (try lia; intro E; rewrite E in Hl;
                                  discriminate).
    rewrite (groups_small 180)
      by (try lia; intro E; rewrite E in Hsnd; discriminate).
    cbn [map number]. do 2 eexists. split; [reflexivity|].
    rewrite !word_count_join, !split_join by auto.
    unfold len. rewrite Hfst, Hsnd. repeat split; reflexivity.
  - intros P pdf_path engine minutes -> Hx Hm Hk Hok.
    rewrite map_snd_number.
    destruct (is_empty (strip t)) eqn:E.
    + rewrite (convert_pdf_blank _ _ _ _ _ _ Hx E).
      apply strip_empty_iff, split_nil_iff in E. rewrite E.
      reflexivity.
    + rewrite (convert_pdf_loop _ _ _ _ _ _ _ Hx E Hs Hm).
      rewrite for_each_ok by auto. cbn [fst snd].
      unfold spoken. rewrite flat_map_app. cbn [flat_map].
      rewrite flat_map_app. fold (spoken (flat_map
        (episode_events (podcast_dir P pdf_path) engine None)
        (number 1 (map (join [space])
                       (groups (Z.to_nat (minutes * 180)) (split t)))))).
      rewrite spoken_events, map_snd_number. cbn. now rewrite app_nil_r.
Qed.

Lemma split_text_count_witness :
  exists eps,
    split_text 200 (sample_text 200) 180 = Some eps /\
    len eps = 2 /\
    exists t1 t2,
      eps = [(1, t1); (2, t2)] /\
      word_count t1 = 180 /\ word_count t2 = 20.
Proof.
  destruct (split_text_count (sample_text 200) 180 200)
    as (eps & He & Hn & H200 & _);
    [lia | apply Nat.leb_le; vm_compute; reflexivity |].
  exists eps. split; [exact He|]. split; [exact Hn|].
  destruct H200 as (t1 & t2 & E & _ & H1 & _ & H2);
    [reflexivity | vm_compute; reflexivity |].
  exists t1, t2. auto.
Defined.

(** ** The names of the episode files *)

Lemma length_lit s : length (lit s) = String.length s.
Proof.
  unfold lit. rewrite length_map.
  induction s as [|c s IH]; simpl; auto.
Qed.

(** The decimal numeral of a number from 10 on has at least two
    characters. *)
Lemma two_digits p :
  (10 <= Z.pos p) ->
  (2 <= String.length (NilZero.string_of_uint (Pos.to_uint p)))%nat.
Proof.
  intros H. pose proof (DecimalPos.Unsigned.of_to p) as E.
  destruct (Pos.to_uint p) as [|d|d|d|d|d|d|d|d|d|d];
    try (destruct d; [vm_compute in E; inversion E; subst; lia
                     | cbn; lia ..]).
  vm_compute in E. discriminate.
Qed.

Lemma format_02d_pos p :
  format_02d (Z.pos p)
  = repeat 48%N (2 - length (str_of_int (Z.pos p))) ++ str_of_int (Z.pos p).
Proof. reflexivity. Qed.

(** C9. For every index from 1 on, the name of the episode file is the
    prefix [episode_], the index in decimal, filled with one zero in
    front exactly when the index is below 10, and the extension [.mp3]:
    the number part has at least two characters, and from 10 on it is the
    plain decimal numeral.  Indices 1, 9, 10, 99 and 100 give
    [episode_01.mp3], [episode_09.mp3], [episode_10.mp3],
    [episode_99.mp3] and [episode_100.mp3]. *)
Theorem episode_name_padded (n : Z) :
  1 <= n ->
  episode_name n
  = lit "episode_" ++ (if n <? 10 then lit "0" else []) ++ str_of_int n
      ++ lit ".mp3" /\
  (2 <= length (format_02d n))%nat /\
  (10 <= n -> format_02d n = str_of_int n) /\
  episode_name 1 = lit "episode_01.mp3" /\
  episode_name 9 = lit "episode_09.mp3" /\
  episode_name 10 = lit "episode_10.mp3" /\
  episode_name 99 = lit "episode_99.mp3" /\
  episode_name 100 = lit "episode_100.mp3".
Proof.
  intros Hn.
  assert (Hf : format_02d n
               = (if n <? 10 then lit "0" else []) ++ str_of_int n /\
               (2 <= length (format_02d n))%nat).
  { destruct n as [|p|p]; try lia. rewrite format_02d_pos.
    destruct (Z.pos p <? 10) eqn:E.
    - assert (Hp : (p = 1 \/ p = 2 \/ p = 3 \/ p = 4 \/ p = 5 \/
                    p = 6 \/ p = 7 \/ p = 8 \/ p = 9)%positive) by lia.
      repeat (destruct Hp as [-> | Hp]; [split; [reflexivity|cbn; lia]|]).
      subst p. split; [reflexivity|cbn; lia].
    - pose proof (two_digits p ltac:(lia)) as H2.
      assert (Hl : (2 <= length (str_of_int (Z.pos p)))%nat)
        by (unfold str_of_int; rewrite length_lit; exact H2).
      replace (2 - length (str_of_int (Z.pos p)))%nat with 0%nat by lia.
      split; [reflexivity|exact Hl]. }
  destruct Hf as [Hf Hl].
  split; [unfold episode_name; rewrite Hf; now rewrite <- app_assoc|].
  split; [exact Hl|].
  split; [|repeat split; reflexivity].
  intros H10. rewrite Hf. destruct (n <? 10) eqn:E; [lia|reflexivity].
Qed.

Lemma episode_name_padded_witness :
  episode_name 12 = lit "episode_12.mp3" /\
  (2 <= length (format_02d 12))%nat.
Proof.
  destruct (episode_name_padded 12) as (H & Hl & _); [lia|].
  split; [exact H | exact Hl].
Defined.

(** ** Properties of the run *)

(** C6. For every text that is empty or has whitespace only, the
    segmenter gives no episode, whatever the budget, and the run ends
    with the error dialog that no text could be extracted, before the
    output directory is created and before any engine is called. *)
Theorem blank_text_rejected (P : Platform) (fuel : nat)
    (pdf_path engine : str) (minutes : Z) (text : str) :
  snd (extract_text P pdf_path) = Ok text ->
  forallb isspace text = true ->
  (forall fuel' w, split_text fuel' text w = Some []) /\
  convert_pdf P fuel pdf_path engine minutes
  = (reading pdf_path ++
       [ShowError (lit "Error")
                  (lit "No text could be extracted from PDF.")],
     Ok tt) /\
  existsb is_mkdir (fst (convert_pdf P fuel pdf_path engine minutes))
  = false /\
  attempts (fst (convert_pdf P fuel pdf_path engine minutes)) = [] /\
  output_files (fst (convert_pdf P fuel pdf_path engine minutes)) = [].
Proof.
  intros Hx Hb. split.
  - intros fuel' w. unfold split_text.
    apply split_nil_iff in Hb. rewrite Hb, split_loop_eq. reflexivity.
  - apply strip_empty_iff in Hb.
    rewrite (convert_pdf_blank _ _ _ _ _ _ Hx Hb).
    repeat split; reflexivity.
Qed.

Lemma blank_text_rejected_witness :
  convert_pdf (quiet [lit "  "; lit " "]) 0 (lit "doc.pdf") (lit "gtts") 15
  = (reading (lit "doc.pdf") ++
       [ShowError (lit "Error")
                  (lit "No text could be extracted from PDF.")],
     Ok tt).
Proof.
  apply (blank_text_rejected (quiet [lit "  "; lit " "]) 0 (lit "doc.pdf")
           (lit "gtts") 15 (lit "  " ++ [newline; newline] ++ lit " "));
    reflexivity.
Defined.

(** Whatever else happens, a run under an unknown engine holds no call
    to an engine. *)
Lemma convert_pdf_unknown_silent {B} (f : Event -> list B)
    P fuel pdf_path engine minutes :
  known_engine engine = false ->
  (forall ev, f ev <> [] ->
     exists text out r, ev = EdgeTts text out r \/ ev = Gtts text out r) ->
  flat_map f (fst (convert_pdf P fuel pdf_path engine minutes)) = [].
Proof.
  intros Hk Hf.
  assert (H0 : forall ev,
             (forall text out r, ev <> EdgeTts text out r) ->
             (forall text out r, ev <> Gtts text out r) -> f ev = []).
  { intros ev H1 H2. destruct (f ev) eqn:E; [reflexivity|].
    destruct (Hf ev) as (text & out & r & [-> | ->]);
      [rewrite E; discriminate | exfalso; eapply H1; reflexivity
      | exfalso; eapply H2; reflexivity]. }
  assert (Hlog : forall line, f (LogInsert line) = [])
    by (intros; apply H0; discriminate).
  assert (Hread : forall p, f (ReadPdf p) = [])
    by (intros; apply H0; discriminate).
  assert (Herr : forall a b, f (ShowError a b) = [])
    by (intros; apply H0; discriminate).
  assert (Hinfo : forall a b, f (ShowInfo a b) = [])
    by (intros; apply H0; discriminate).
  assert (Hmk : forall a b, f (Mkdir a b) = [])
    by (intros; apply H0; discriminate).
  unfold convert_pdf, extract_text. cbn [bind emit].
  destruct (pdf_pages P pdf_path) as [e|pages].
  { cbn. now rewrite Hlog, Hread, Herr. }
  cbn [bind ret].
  destruct (is_empty (strip _)).
  { cbn. now rewrite Hlog, Hread, Herr. }
  destruct (split_text fuel _ _) as [eps|].
  2:{ cbn. now rewrite Hlog, Hread. }
  cbn [bind ret]. destruct (mkdir P _) as [e|].
  { cbn. now rewrite Hlog, Hread, Hmk, Herr. }
  cbn [call bind]. rewrite for_each_unknown by auto.
  cbn [bind emit try_except fst app flat_map].
  rewrite Hlog, Hread, Hmk. cbn [app].
  rewrite flat_map_app, unknown_events_silent by auto.
  cbn. now rewrite Hinfo.
Qed.

(** C1, as stated, fails: under the engine ["unknown-engine"] the run of
    a text of two words is not rejected.  No error dialog is shown, the
    directory is created, the episode is taken up, and the run ends with
    the dialog of a finished run. *)
Lemma unknown_engine_not_rejected :
  let run := convert_pdf (quiet [lit "hello world"]) 2 (lit "doc.pdf")
               (lit "unknown-engine") 1 in
  known_engine (lit "unknown-engine") = false /\
  ~ rejected_early (fst run) /\
  existsb is_error (fst run) = false /\
  existsb is_mkdir (fst run) = true /\
  existsb is_episode_start (fst run) = true /\
  existsb is_done (fst run) = true /\
  snd run = Ok tt.
Proof.
  cbv zeta. split; [reflexivity|]. split.
  - intros (H & _). vm_compute in H. discriminate.
  - repeat split; vm_compute; reflexivity.
Qed.

(** C1, amended. For every run with an engine other than ["edge-tts"]
    and ["gtts"], no engine is called and no episode file is written.
    The engine is not looked at before the loop: when the text has words,
    the minutes are positive and the directory can be created, the
    directory is created, every episode of the segmenter is taken up in
    order and gets a log line that the engine is unknown, no error dialog
    is shown, and the run ends with the dialog of a finished run. *)
Theorem unknown_engine_run (P : Platform) (fuel : nat)
    (pdf_path engine : str) (minutes : Z) :
  known_engine engine = false ->
  attempts (fst (convert_pdf P fuel pdf_path engine minutes)) = [] /\
  output_files (fst (convert_pdf P fuel pdf_path engine minutes)) = [] /\
  (forall text,
     snd (extract_text P pdf_path) = Ok text ->
     is_empty (strip text) = false ->
     0 < minutes ->
     (length (split text) <= fuel)%nat ->
     mkdir P (podcast_dir P pdf_path) = None ->
     exists eps message,
       split_text fuel text (minutes * 180) = Some eps /\
       convert_pdf P fuel pdf_path engine minutes
       = (reading pdf_path ++ Mkdir (podcast_dir P pdf_path) None
            :: flat_map (unknown_events engine) eps
            ++ [ShowInfo (lit "Done") message],
          Ok tt) /\
       existsb is_error (fst (convert_pdf P fuel pdf_path engine minutes))
       = false).
Proof.
  intros Hk. split; [|split].
  - apply convert_pdf_unknown_silent; auto.
    intros [] H; simpl in H; try congruence; eauto.
  - apply convert_pdf_unknown_silent; auto.
    intros [] H; simpl in H; try congruence; eauto.
  - intros text Hx Hne Hm Hf Hmk.
    pose proof (split_text_groups fuel text (minutes * 180)
                  ltac:(lia) Hf) as Hs.
    do 2 eexists. split; [exact Hs|].
    rewrite (convert_pdf_loop _ _ _ engine _ _ _ Hx Hne Hs Hmk).
    rewrite for_each_unknown by auto. cbn [fst snd].
    split; [reflexivity|].
    unfold reading. cbn [app existsb is_error orb].
    rewrite existsb_app. cbn [existsb is_error orb].
    rewrite orb_false_r.
    generalize (number 1 (map (join [space])
                  (groups (Z.to_nat (minutes * 180)) (split text)))).
    intros eps. induction eps as [|ep eps IH]; [reflexivity|].
    cbn [flat_map]. rewrite existsb_app, IH. reflexivity.
Qed.

Lemma unknown_engine_run_witness :
  attempts (fst (convert_pdf (quiet [lit "hello world"]) 2 (lit "doc.pdf")
                   (lit "unknown-engine") 1)) = [] /\
  output_files (fst (convert_pdf (quiet [lit "hello world"]) 2
                       (lit "doc.pdf") (lit "unknown-engine") 1)) = [].
Proof.
  destruct (unknown_engine_run (quiet [lit "hello world"]) 2 (lit "doc.pdf")
              (lit "unknown-engine") 1) as (Ha & Ho & _); [reflexivity|].
  split; [exact Ha | exact Ho].
Defined.

(** C2, as stated, fails: on a text of 400 words and one minute per
    episode the segmenter gives three episodes; when saving the second
    raises, the run makes two calls and no third, only the first episode
    file exists, and no dialog of a finished run is shown. *)
Lemma second_failure_halts :
  let P := second_fails [sample_text 400] in
  let run := convert_pdf P 400 (lit "doc.pdf") (lit "gtts") 1 in
  (exists eps, split_text 400 (sample_text 400) (1 * 180) = Some eps /\
               map fst eps = [1; 2; 3] /\
               map (episode_raises P (lit "doc_podcast") (lit "gtts")) eps
               = [None; Some (lit "connection reset"); None]) /\
  attempts (fst run)
  = [(lit "doc_podcast/episode_01.mp3", None);
     (lit "doc_podcast/episode_02.mp3", Some (lit "connection reset"))] /\
  ~ In (lit "doc_podcast/episode_03.mp3") (map fst (attempts (fst run))) /\
  output_files (fst run) = [lit "doc_podcast/episode_01.mp3"] /\
  existsb is_done (fst run) = false.
Proof.
  cbv zeta. split; [|split; [|split; [|split]]].
  - eexists. split; [vm_compute; reflexivity|].
    split; vm_compute; reflexivity.
  - vm_compute. reflexivity.
  - intros H. vm_compute in H.
    destruct H as [H | [H | []]]; discriminate.
  - vm_compute. reflexivity.
  - vm_compute. reflexivity.
Qed.

(** C2, amended. For a run with a known engine whose text has words, is
    segmented into [eps], and whose directory can be created: when no
    call raises, every episode is attempted in order and the run ends
    with the dialog that reports the number of episodes; when a call
    raises, the run stops there: the episodes before it were attempted
    and have their files, the raising call is the last attempt, no later
    episode is attempted, and the run ends with one error dialog that
    carries the message of the exception. *)
Theorem first_failure_ends_run (P : Platform) (fuel : nat)
    (pdf_path engine : str) (minutes : Z) (text : str)
    (eps : list episode) :
  known_engine engine = true ->
  snd (extract_text P pdf_path) = Ok text ->
  is_empty (strip text) = false ->
  split_text fuel text (minutes * 180) = Some eps ->
  mkdir P (podcast_dir P pdf_path) = None ->
  let out_dir := podcast_dir P pdf_path in
  let run := convert_pdf P fuel pdf_path engine minutes in
  (Forall (fun ep => episode_raises P out_dir engine ep = None) eps ->
   run = (reading pdf_path ++ Mkdir out_dir None
            :: flat_map (episode_events out_dir engine None) eps
            ++ [ShowInfo (lit "Done") (done_message (len eps) out_dir)],
          Ok tt) /\
   attempts (fst run) = map (fun ep => (episode_file out_dir ep, None)) eps /\
   output_files (fst run) = map (episode_file out_dir) eps) /\
  (forall pre ep post e,
     eps = pre ++ ep :: post ->
     Forall (fun ep => episode_raises P out_dir engine ep = None) pre ->
     episode_raises P out_dir engine ep = Some e ->
     run = (reading pdf_path ++ Mkdir out_dir None
              :: (flat_map (episode_events out_dir engine None) pre
                  ++ episode_events out_dir engine (Some e) ep)
              ++ [ShowError (lit "Error") e],
            Ok tt) /\
     attempts (fst run)
     = map (fun ep => (episode_file out_dir ep, None)) pre
       ++ [(episode_file out_dir ep, Some e)] /\
     output_files (fst run) = map (episode_file out_dir) pre).
Proof.
  intros Hk Hx Hne Hs Hm out_dir run.
  pose proof (convert_pdf_loop _ _ _ engine _ _ _ Hx Hne Hs Hm) as Hrun.
  cbv zeta in Hrun. fold out_dir in Hrun. fold run in Hrun.
  split.
  - intros Hok. rewrite for_each_ok in Hrun by auto. cbn [fst snd] in Hrun.
    rewrite Hrun. split; [reflexivity|]. cbn [fst]. split.
    + unfold attempts, reading. cbn [app flat_map attempt].
      rewrite flat_map_app. cbn [flat_map attempt]. rewrite app_nil_r.
      apply attempts_events.
    + unfold output_files, reading. cbn [app flat_map written].
      rewrite flat_map_app. cbn [flat_map written]. rewrite app_nil_r.
      apply output_files_events.
  - intros pre ep post e -> Hpre Hep.
    rewrite (for_each_raise _ _ _ _ _ _ e) in Hrun by auto.
    cbn [fst snd] in Hrun. rewrite Hrun. split; [reflexivity|].
    cbn [fst]. split.
    + unfold attempts, reading. cbn [app flat_map attempt].
      rewrite !flat_map_app. cbn [flat_map attempt]. rewrite app_nil_r.
      f_equal; [apply attempts_events|].
      unfold episode_events.
      destruct (backend_call_cases engine) as [-> | ->]; reflexivity.
    + unfold output_files, reading. cbn [app flat_map written].
      rewrite !flat_map_app. cbn [flat_map written]. rewrite app_nil_r.
      fold (output_files (episode_events out_dir engine (Some e) ep)).
      rewrite output_files_raised, app_nil_r.
      apply output_files_events.
Qed.

Lemma first_failure_ends_run_witness :
  let P := second_fails [sample_text 400] in
  let run := convert_pdf P 400 (lit "doc.pdf") (lit "gtts") 1 in
  attempts (fst run)
  = [(lit "doc_podcast/episode_01.mp3", None);
     (lit "doc_podcast/episode_02.mp3", Some (lit "connection reset"))] /\
  output_files (fst run) = [lit "doc_podcast/episode_01.mp3"].
Proof.
  cbv zeta.
  pose (eps := number 1 (map (join [space])
                             (groups 180 (repeat (lit "word") 400)))).
  destruct (first_failure_ends_run (second_fails [sample_text 400]) 400
              (lit "doc.pdf") (lit "gtts") 1 (sample_text 400) eps)
    as [_ Hfail];
    [reflexivity | reflexivity | vm_compute; reflexivity
    | vm_compute; reflexivity | reflexivity |].
  destruct (Hfail (firstn 1 eps) (nth 1 eps (0, [])) (skipn 2 eps)
              (lit "connection reset"))
    as (_ & Ha & Ho);
    [vm_compute; reflexivity
    | repeat constructor; vm_compute; reflexivity
    | vm_compute; reflexivity |].
  split; [exact Ha | exact Ho].
Defined.

(** C3: what the code does when the minutes are not positive.  Nothing
    checks the minutes: for a text that has words the segmenter is called
    with a budget that is not positive, its loop never leaves its first
    position, however many iterations it is given, and so the run is not
    rejected: no error dialog is shown. *)
Theorem nonpositive_minutes_not_rejected (P : Platform) (fuel : nat)
    (pdf_path engine : str) (minutes : Z) (text : str) :
  snd (extract_text P pdf_path) = Ok text ->
  is_empty (strip text) = false ->
  minutes <= 0 ->
  split_text fuel text (minutes * 180) = None /\
  convert_pdf P fuel pdf_path engine minutes = (reading pdf_path, Running) /\
  ~ rejected_early (fst (convert_pdf P fuel pdf_path engine minutes)).
Proof.
  intros Hx Hne Hm. split; [|split].
  - unfold split_text. apply split_loop_stuck; try lia.
    now apply strip_nonempty_split.
  - now apply (convert_pdf_stuck _ _ _ _ _ text).
  - rewrite (convert_pdf_stuck _ _ _ _ _ text) by auto.
    intros (H & _). discriminate.
Qed.

Lemma nonpositive_minutes_not_rejected_witness :
  split_text 1000 (lit "hello") (0 * 180) = None /\
  convert_pdf (quiet [lit "hello"]) 1000 (lit "doc.pdf") (lit "gtts") 0
  = (reading (lit "doc.pdf"), Running).
Proof.
  destruct (nonpositive_minutes_not_rejected (quiet [lit "hello"]) 1000
              (lit "doc.pdf") (lit "gtts") 0 (lit "hello"))
    as (Hs & Hrun & _); [reflexivity | reflexivity | lia |].
  split; [exact Hs | exact Hrun].
Defined.

(** ** Further properties of the segmenter *)

(** Whatever the fuel, what the loop returns under a positive budget are
    the groups of the remaining words. *)
Lemma split_loop_some fuel : forall words w start idx eps r,
  0 < w -> 0 <= start <= len words ->
  split_loop fuel words w start idx eps = Some r ->
  r = eps ++ number idx
        (map (join [space])
             (groups (Z.to_nat w) (skipn (Z.to_nat start) words))).
Proof.
  induction fuel as [|fuel IH]; intros words w start idx eps r Hw Hs;
    rewrite split_loop_eq; destruct (start <? len words) eqn:E;
    intros Hr; try discriminate.
  - injection Hr as <-. rewrite skipn_all2 by (unfold len in *; lia).
    rewrite groups_nil. simpl. now rewrite app_nil_r.
  - destruct (slice_next_group words w start Hw) as (Hne & Hslice & Hskip);
      [lia|].
    apply IH in Hr; [|lia|unfold len in *; lia].
    rewrite Hslice, Hskip in Hr.
    rewrite (groups_step (Z.to_nat w)) with
      (l := skipn (Z.to_nat start) words) by (auto; lia).
    cbn [map number]. now rewrite <- app_assoc in Hr.
  - injection Hr as <-. rewrite skipn_all2 by (unfold len in *; lia).
    rewrite groups_nil. simpl. now rewrite app_nil_r.
Qed.

(** What [split_text] returns, when it returns. *)
Lemma split_text_some fuel t w eps :
  split_text fuel t w = Some eps ->
  (0 < w \/ split t = []) /\
  eps = number 1 (map (join [space]) (groups (Z.to_nat w) (split t))).
Proof.
  intros H. destruct (Z.lt_ge_cases 0 w) as [Hw|Hw].
  - split; [auto|]. unfold split_text in H.
    apply split_loop_some in H; auto.
    pose proof (len_nonneg (split t)). lia.
  - destruct (split t) as [|x ws] eqn:E.
    + split; [auto|]. unfold split_text in H. rewrite E in H.
      rewrite split_loop_eq in H. simpl in H. injection H as <-.
      reflexivity.
    + unfold split_text in H. rewrite E in H.
      rewrite split_loop_stuck in H; try lia; discriminate.
Qed.

(** X8. [split_text] returns exactly when the budget is positive or the
    text has no words: with a budget that is not positive and a text
    that has a word, no number of iterations is enough. *)
Theorem split_text_returns_iff (t : str) (w : Z) :
  (exists fuel eps, split_text fuel t w = Some eps)
  <-> (0 < w \/ split t = []).
Proof.
  split.
  - intros (fuel & eps & H). apply split_text_some in H. tauto.
  - intros [Hw | Hb].
    + exists (length (split t)). rewrite split_text_groups by auto. eauto.
    + exists 0%nat, []. unfold split_text. rewrite Hb. reflexivity.
Qed.

Lemma nth_error_groups {A} (n : nat) (Hn : (0 < n)%nat) k :
  forall l : list A,
    (k * n < length l)%nat ->
    nth_error (groups n l) k = Some (firstn n (skipn (k * n) l)).
Proof.
  induction k as [|k IH]; intros l Hk.
  - rewrite groups_step by (auto; intros ->; simpl in Hk; lia).
    reflexivity.
  - rewrite groups_step by (auto; intros ->; simpl in Hk; lia).
    cbn [nth_error]. rewrite IH by (rewrite length_skipn; lia).
    rewrite skipn_skipn. do 3 f_equal. lia.
Qed.

Lemma nth_error_number texts : forall idx k t,
  nth_error texts k = Some t ->
  nth_error (number idx texts) k = Some (idx + Z.of_nat k, t).
Proof.
  induction texts as [|t0 ts IH]; intros idx k t H.
  - destruct k; discriminate.
  - destruct k as [|k].
    + simpl in *. injection H as ->. do 2 f_equal. lia.
    + cbn [nth_error number] in *. rewrite (IH _ _ _ H).
      do 2 f_equal. lia.
Qed.

Lemma length_groups_lt {A} (n : nat) (Hn : (0 < n)%nat) (l : list A) k :
  (k < length (groups n l))%nat -> (k * n < length l)%nat.
Proof.
  intros Hk. pose proof (length_groups n Hn l) as E.
  assert (Hq : Z.of_nat k < (Z.of_nat (length l) + Z.of_nat n - 1)
                            / Z.of_nat n) by lia.
  assert (Hm : Z.of_nat k * Z.of_nat n < Z.of_nat (length l)).
  { destruct (Z.lt_ge_cases (Z.of_nat k * Z.of_nat n) (Z.of_nat (length l)));
      [assumption|].
    exfalso.
    assert ((Z.of_nat (length l) + Z.of_nat n - 1) / Z.of_nat n
            < Z.of_nat k + 1); [|lia].
    apply Z.div_lt_upper_bound; nia. }
  nia.
Qed.

(** X9. Under a positive budget [w] the episode at position [k]
    (counting from 0) has index [k + 1] and the text of the words
    [words[k*w : k*w + w]], joined by single spaces. *)
Theorem split_text_slices (t : str) (w : Z) (fuel : nat) :
  0 < w -> (length (split t) <= fuel)%nat ->
  exists eps,
    split_text fuel t w = Some eps /\
    forall k, (k < length eps)%nat ->
      nth_error eps k
      = Some (Z.of_nat k + 1,
              join [space]
                (slice (split t) (Z.of_nat k * w) (Z.of_nat k * w + w))).
Proof.
  intros Hw Hf. rewrite split_text_groups by auto.
  eexists; split; [reflexivity|]. intros k Hk.
  rewrite length_number, length_map in Hk.
  pose proof (to_nat_pos w Hw) as Hn.
  pose proof (length_groups_lt _ Hn _ _ Hk) as Hkn.
  assert (Hz : Z.of_nat k * w < len (split t)) by (unfold len; nia).
  assert (Hsl : slice (split t) (Z.of_nat k * w) (Z.of_nat k * w + w)
                = firstn (Z.to_nat w) (skipn (k * Z.to_nat w) (split t))).
  { assert (Hq0 : 0 <= Z.of_nat k * w) by nia.
    unfold slice. rewrite (clamp_inside _ (Z.of_nat k * w)) by lia.
    replace (Z.to_nat (Z.of_nat k * w)) with (k * Z.to_nat w)%nat by nia.
    unfold clamp.
    destruct (Z.of_nat k * w + w <? 0) eqn:E; [lia|].
    destruct (Z.le_gt_cases (Z.of_nat k * w + w) (len (split t))).
    - f_equal. lia.
    - rewrite !firstn_all2; auto; rewrite length_skipn; unfold len in *; lia. }
  rewrite Hsl, (Z.add_comm (Z.of_nat k) 1).
  apply nth_error_number.
  rewrite nth_error_map, (nth_error_groups _ Hn) by auto. reflexivity.
Qed.

Lemma split_text_slices_witness :
  exists eps,
    split_text 5 (lit "a b c d e") 2 = Some eps /\
    nth_error eps 2 = Some (3, lit "e").
Proof.
  destruct (split_text_slices (lit "a b c d e") 2 5) as (eps & He & Hk);
    [lia | simpl; lia |].
  exists eps. split; [exact He|].
  injection He as <-. apply (Hk 2%nat). simpl. lia.
Defined.

Lemma join_rev sep (ps : list str) :
  rev (join sep ps) = join (rev sep) (map (@rev char) (rev ps)).
Proof.
  induction ps as [|p ps IH]; [reflexivity|].
  destruct ps as [|q ps].
  - simpl. reflexivity.
  - rewrite join_cons by discriminate.
    rewrite !rev_app_distr, IH, <- app_assoc.
    change (rev (p :: q :: ps)) with (rev (q :: ps) ++ [p]).
    rewrite map_app, join_app.
    + reflexivity.
    + simpl. destruct (rev ps); discriminate.
    + discriminate.
Qed.

Lemma is_word_rev w : is_word w -> is_word (rev w).
Proof.
  intros [Hne Hw]. split.
  - intro E. apply (f_equal (@rev char)) in E.
    rewrite rev_involutive in E. simpl in E. congruence.
  - now rewrite existsb_rev.
Qed.

Lemma lstrip_join ws :
  Forall is_word ws -> lstrip (join [space] ws) = join [space] ws.
Proof.
  intros H. destruct H as [|w ws [Hne Hw] Hws]; [reflexivity|].
  destruct w as [|c w]; [congruence|].
  simpl in Hw. apply orb_false_iff in Hw. destruct Hw as [Hc _].
  destruct ws; simpl; now rewrite Hc.
Qed.

(** The words joined by single spaces have no whitespace at their ends. *)
Lemma strip_join ws :
  Forall is_word ws -> strip (join [space] ws) = join [space] ws.
Proof.
  intros H. unfold strip, rstrip. rewrite lstrip_join by auto.
  rewrite join_rev. change (rev [space]) with [space].
  rewrite lstrip_join.
  - rewrite <- (join_rev [space]). apply rev_involutive.
  - apply Forall_map, Forall_rev.
    eapply Forall_impl; [|exact H]. apply is_word_rev.
Qed.

(** X10. Under a positive budget no episode text is empty, and every
    episode text is its own words joined by single spaces: whatever
    whitespace the input has between words, an episode has single spaces
    only, and none at its ends. *)
Theorem split_text_normal (t : str) (w : Z) (fuel : nat) :
  0 < w -> (length (split t) <= fuel)%nat ->
  exists eps,
    split_text fuel t w = Some eps /\
    Forall (fun ep => snd ep <> [] /\
                      join [space] (split (snd ep)) = snd ep /\
                      strip (snd ep) = snd ep) eps.
Proof.
  intros Hw Hf. rewrite split_text_groups by auto.
  eexists; split; [reflexivity|].
  pose proof (to_nat_pos w Hw) as Hn.
  apply (proj1 (Forall_map snd
           (fun x => x <> [] /\ join [space] (split x) = x /\ strip x = x)
           _)).
  rewrite (map_snd_number _ 1). apply Forall_map.
  pose proof (groups_Forall _ Hn (split t) is_word (split_words t)) as Hws.
  pose proof (groups_nonempty _ Hn (split t)) as Hne.
  induction Hws as [|g gs Hg Hgs IH]; constructor.
  - inversion Hne as [|? ? Hg0 _]; subst. repeat split.
    + destruct Hg as [|x g' [Hx _] _]; [congruence|].
      destruct x; [congruence|]. destruct g'; simpl; discriminate.
    + now rewrite split_join.
    + now apply strip_join.
  - apply IH. now inversion Hne.
Qed.

Lemma split_text_normal_witness :
  exists eps,
    split_text 4 (lit " to   be or  not ") 3 = Some eps /\
    map snd eps = [lit "to be or"; lit "not"].
Proof.
  destruct (split_text_normal (lit " to   be or  not ") 3 4)
    as (eps & He & _); [lia | simpl; lia |].
  exists eps. split; [exact He|].
  injection He as <-. reflexivity.
Defined.

(** ** The extracted text *)

(** Whitespace between two texts keeps their words apart. *)
Lemma split_from_sep a : forall cur c b,
  isspace c = true ->
  split_from cur (a ++ c :: b) = split_from cur a ++ split b.
Proof.
  unfold split. induction a as [|x a IH]; intros cur c b Hc.
  - simpl. rewrite Hc. destruct cur; reflexivity.
  - simpl. destruct (isspace x).
    + destruct cur; rewrite IH by auto; reflexivity.
    + now apply IH.
Qed.

Lemma split_space_head c b : isspace c = true -> split (c :: b) = split b.
Proof. intros Hc. unfold split. simpl. now rewrite Hc. Qed.

Lemma split_join_pages (pages : list str) :
  split (join [newline; newline] pages) = concat (map split pages).
Proof.
  induction pages as [|p pages IH]; [reflexivity|].
  destruct pages as [|q pages].
  - simpl. now rewrite app_nil_r.
  - rewrite join_cons by discriminate.
    change ([newline; newline] ++ join [newline; newline] (q :: pages))
      with (newline :: newline :: join [newline; newline] (q :: pages)).
    unfold split at 1. rewrite split_from_sep by reflexivity.
    rewrite split_space_head by reflexivity.
    rewrite IH. reflexivity.
Qed.

Lemma concat_split_filter (pages : list str) :
  concat (map split (filter (fun t => negb (is_empty t)) pages))
  = concat (map split pages).
Proof.
  induction pages as [|p pages IH]; [reflexivity|].
  destruct p as [|c p]; simpl; [exact IH|]. now rewrite IH.
Qed.

Lemma extract_text_pages P pdf_path pages :
  pdf_pages P pdf_path = inr pages ->
  extract_text P pdf_path
  = ([ReadPdf pdf_path],
     Ok (join [newline; newline]
              (filter (fun t => negb (is_empty t)) pages))).
Proof. intros H. unfold extract_text. rewrite bind_emit, H. reflexivity. Qed.

(** X1. When the PDF is read, the words of the extracted text are the
    words of its pages, page after page: no word is lost, no word of one
    page runs into a word of the next, and pages without text change
    nothing. *)
Theorem extract_text_words (P : Platform) (pdf_path : str)
    (pages : list str) :
  pdf_pages P pdf_path = inr pages ->
  exists text,
    extract_text P pdf_path = ([ReadPdf pdf_path], Ok text) /\
    split text = concat (map split pages) /\
    text = join [newline; newline]
             (filter (fun t => negb (is_empty t)) pages).
Proof.
  intros H. eexists. split; [exact (extract_text_pages _ _ _ H)|].
  split; [|reflexivity].
  now rewrite split_join_pages, concat_split_filter.
Qed.

Lemma extract_text_words_witness :
  exists text,
    extract_text (quiet [lit "one two"; []; lit "three "]) (lit "doc.pdf")
    = ([ReadPdf (lit "doc.pdf")], Ok text) /\
    split text = [lit "one"; lit "two"; lit "three"].
Proof.
  destruct (extract_text_words (quiet [lit "one two"; []; lit "three "])
              (lit "doc.pdf") [lit "one two"; []; lit "three "])
    as (text & He & Hs & _); [reflexivity|].
  exists text. split; [exact He | exact Hs].
Defined.

(** ** The names of the files, again *)

Lemma lit_inj s1 s2 : lit s1 = lit s2 -> s1 = s2.
Proof.
  unfold lit. intros H.
  rewrite <- (string_of_list_ascii_of_string s1).
  rewrite <- (string_of_list_ascii_of_string s2).
  f_equal. revert H.
  generalize (list_ascii_of_string s1) (list_ascii_of_string s2).
  induction l as [|a l IH]; intros [|b l'] H; try discriminate; auto.
  simpl in H. injection H as Hab Hl. f_equal; auto.
  rewrite <- (ascii_N_embedding a), <- (ascii_N_embedding b).
  now rewrite Hab.
Qed.

Lemma str_of_int_pos_inj p q :
  str_of_int (Z.pos p) = str_of_int (Z.pos q) -> p = q.
Proof.
  unfold str_of_int. intros H. apply lit_inj in H. simpl in H.
  apply DecimalPos.Unsigned.to_uint_inj.
  pose proof (DecimalPos.Unsigned.to_uint_nonnil p) as Hp.
  pose proof (DecimalPos.Unsigned.to_uint_nonnil q) as Hq.
  unfold NilZero.string_of_uint in H.
  assert (E : NilEmpty.string_of_uint (Pos.to_uint p)
              = NilEmpty.string_of_uint (Pos.to_uint q)).
  { destruct (Pos.to_uint p); try congruence;
      destruct (Pos.to_uint q); try congruence. }
  apply (f_equal NilEmpty.uint_of_string) in E.
  rewrite !NilEmpty.usu in E. congruence.
Qed.

(** A decimal numeral of a positive number does not start with 0. *)
Lemma to_uint_head p d : Pos.to_uint p <> Decimal.D0 d.
Proof.
  intros E.
  pose proof (DecimalPos.Unsigned.to_of (Pos.to_uint p)) as H.
  rewrite DecimalPos.Unsigned.of_to in H. simpl in H.
  rewrite E in H at 1. unfold Decimal.unorm in H.
  destruct (Decimal.nzhead (Pos.to_uint p)) eqn:En;
    try (symmetry in H; revert H; rewrite <- En;
         apply DecimalFacts.nzhead_nonzero).
  injection H as ->.
  apply (DecimalPos.Unsigned.to_uint_nonzero p). exact E.
Qed.

Lemma format_02d_small p :
  Z.pos p < 10 -> format_02d (Z.pos p) = 48%N :: str_of_int (Z.pos p).
Proof.
  intros H.
  assert (Hp : (p = 1 \/ p = 2 \/ p = 3 \/ p = 4 \/ p = 5 \/
                p = 6 \/ p = 7 \/ p = 8 \/ p = 9)%positive) by lia.
  repeat (destruct Hp as [-> | Hp]; [reflexivity|]).
  subst p. reflexivity.
Qed.

Lemma format_02d_large p :
  10 <= Z.pos p -> format_02d (Z.pos p) = str_of_int (Z.pos p).
Proof.
  intros H. rewrite format_02d_pos.
  pose proof (two_digits p H) as H2.
  assert (Hl : (2 <= length (str_of_int (Z.pos p)))%nat)
    by (unfold str_of_int; rewrite length_lit; exact H2).
  now replace (2 - length (str_of_int (Z.pos p)))%nat with 0%nat by lia.
Qed.

Lemma str_of_int_head p s :
  str_of_int (Z.pos p) <> 48%N :: s.
Proof.
  unfold str_of_int. simpl.
  pose proof (DecimalPos.Unsigned.to_uint_nonnil p) as Hn.
  pose proof (to_uint_head p) as Hh.
  destruct (Pos.to_uint p) as [|d|d|d|d|d|d|d|d|d|d];
    try (cbn; discriminate).
  - congruence.
  - exfalso. now apply (Hh d).
Qed.

Lemma format_02d_inj n m :
  1 <= n -> 1 <= m -> format_02d n = format_02d m -> n = m.
Proof.
  intros Hn Hm H.
  destruct n as [|p|p]; try lia. destruct m as [|q|q]; try lia.
  destruct (Z.lt_ge_cases (Z.pos p) 10) as [Hp|Hp];
    destruct (Z.lt_ge_cases (Z.pos q) 10) as [Hq|Hq].
  - rewrite !format_02d_small in H by auto. injection H as H.
    now apply str_of_int_pos_inj in H as ->.
  - rewrite format_02d_small, format_02d_large in H by auto.
    symmetry in H. now apply str_of_int_head in H.
  - rewrite format_02d_large, format_02d_small in H by auto.
    now apply str_of_int_head in H.
  - rewrite !format_02d_large in H by auto.
    now apply str_of_int_pos_inj in H as ->.
Qed.

Lemma episode_name_injective n m :
  1 <= n -> 1 <= m -> episode_name n = episode_name m -> n = m.
Proof.
  intros Hn Hm H. unfold episode_name in H.
  apply app_inv_head, app_inv_tail in H.
  now apply format_02d_inj.
Qed.


(** ** Every way a run can go *)

Lemma convert_pdf_reader_raises P fuel pdf_path engine minutes e :
  pdf_pages P pdf_path = inl e ->
  convert_pdf P fuel pdf_path engine minutes
  = (reading pdf_path ++ [ShowError (lit "Error") e], Ok tt).
Proof.
  intros H. unfold convert_pdf, extract_text. cbn [bind emit].
  rewrite H. reflexivity.
Qed.

Lemma convert_pdf_mkdir_raises P fuel pdf_path engine minutes text eps e :
  snd (extract_text P pdf_path) = Ok text ->
  is_empty (strip text) = false ->
  split_text fuel text (minutes * 180) = Some eps ->
  mkdir P (podcast_dir P pdf_path) = Some e ->
  convert_pdf P fuel pdf_path engine minutes
  = (reading pdf_path ++
       [Mkdir (podcast_dir P pdf_path) (Some e); ShowError (lit "Error") e],
     Ok tt).
Proof.
  intros Hx Hne Hs Hm.
  unfold convert_pdf. rewrite (extract_text_ok _ _ _ Hx).
  cbn [bind emit]. rewrite Hne, Hs, Hm. reflexivity.
Qed.

Lemma convert_pdf_running P fuel pdf_path engine minutes text :
  snd (extract_text P pdf_path) = Ok text ->
  is_empty (strip text) = false ->
  split_text fuel text (minutes * 180) = None ->
  convert_pdf P fuel pdf_path engine minutes = (reading pdf_path, Running).
Proof.
  intros Hx Hne Hs.
  unfold convert_pdf. rewrite (extract_text_ok _ _ _ Hx).
  cbn [bind emit]. rewrite Hne, Hs. reflexivity.
Qed.

Lemma first_raise {A B} (f : A -> option B) (l : list A) :
  Forall (fun x => f x = None) l \/
  exists pre x post e,
    l = pre ++ x :: post /\ Forall (fun x => f x = None) pre /\ f x = Some e.
Proof.
  induction l as [|x l IH]; [left; constructor|].
  destruct (f x) as [e|] eqn:E.
  - right. exists [], x, l, e. repeat split; auto.
  - destruct IH as [IH | (pre & y & post & e & -> & Hpre & Hy)].
    + left. constructor; auto.
    + right. exists (x :: pre), y, post, e. repeat split; auto.
Qed.

Lemma for_each_cases P out_dir engine eps :
  LoopCase P out_dir engine eps
    (for_each eps (convert_episode P out_dir engine)).
Proof.
  destruct (known_engine engine) eqn:Hk.
  - destruct (first_raise (episode_raises P out_dir engine) eps)
      as [Hok | (pre & ep & post & e & -> & Hpre & Hep)].
    + rewrite for_each_ok by auto. now constructor.
    + rewrite (for_each_raise _ _ _ _ _ _ e) by auto.
      now apply LoopRaised with (post := post).
  - rewrite for_each_unknown by auto. now constructor.
Qed.

Lemma convert_pdf_cases P fuel pdf_path engine minutes :
  RunCase P fuel pdf_path engine minutes
    (convert_pdf P fuel pdf_path engine minutes).
Proof.
  destruct (pdf_pages P pdf_path) as [e|pages] eqn:Hp.
  - rewrite (convert_pdf_reader_raises _ _ _ _ _ e) by auto.
    now constructor.
  - pose proof (extract_text_pages _ _ _ Hp) as Hx.
    apply (f_equal snd) in Hx. cbn [snd] in Hx.
    set (text := join _ _) in Hx.
    destruct (is_empty (strip text)) eqn:He.
    + rewrite (convert_pdf_blank _ _ _ _ _ _ Hx He).
      now apply RunNoText with (text := text).
    + destruct (split_text fuel text (minutes * 180)) as [eps|] eqn:Hs.
      * destruct (mkdir P (podcast_dir P pdf_path)) as [e|] eqn:Hm.
        -- rewrite (convert_pdf_mkdir_raises _ _ _ _ _ _ _ e Hx He Hs Hm).
           now apply RunMkdirRaised with (text := text) (eps := eps).
        -- rewrite (convert_pdf_loop _ _ _ engine _ _ _ Hx He Hs Hm).
           cbv zeta.
           pose proof (for_each_cases P (podcast_dir P pdf_path) engine eps)
             as Hl.
           replace (match snd (for_each eps
                      (convert_episode P (podcast_dir P pdf_path) engine))
                    with Running => Running | _ => Ok tt end)
             with (@Ok unit tt) by (destruct Hl; reflexivity).
           now apply RunLoop with (text := text).
      * rewrite (convert_pdf_running _ _ _ _ _ _ Hx He Hs).
        now apply RunSegmenting with (text := text).
Qed.

(** *** What the events of the loop do not hold *)

Lemma existsb_flat_map {A B} (f : B -> bool) (g : A -> list B) l :
  (forall x, existsb f (g x) = false) ->
  existsb f (flat_map g l) = false.
Proof.
  intros H. induction l as [|x l IH]; [reflexivity|].
  cbn [flat_map]. now rewrite existsb_app, H, IH.
Qed.


Lemma unknown_events_quiet (f : Event -> bool) engine ep :
  (forall line, f (LogInsert line) = false) ->
  existsb f (unknown_events engine ep) = false.
Proof.
  intros Hlog. unfold unknown_events. cbn [existsb]. now rewrite !Hlog.
Qed.


(** ** Further properties of the run *)

(** X3. When reading the PDF raises, the run shows one error dialog with
    the message of the exception and returns: no directory is created,
    no engine is called, whatever the engine and the minutes. *)
Theorem reader_failure_reported (P : Platform) (fuel : nat)
    (pdf_path engine : str) (minutes : Z) (e : Exn) :
  pdf_pages P pdf_path = inl e ->
  convert_pdf P fuel pdf_path engine minutes
  = (reading pdf_path ++ [ShowError (lit "Error") e], Ok tt) /\
  existsb is_mkdir (fst (convert_pdf P fuel pdf_path engine minutes))
  = false /\
  attempts (fst (convert_pdf P fuel pdf_path engine minutes)) = [].
Proof.
  intros H. rewrite (convert_pdf_reader_raises _ _ _ _ _ e H).
  repeat split; reflexivity.
Qed.

Lemma reader_failure_reported_witness :
  let P := {| pdf_pages := fun _ => inl (lit "not a PDF");
              podcast_dir := fun _ => lit "doc_podcast";
              mkdir := fun _ => None;
              edge_save := fun _ _ => None;
              gtts_save := fun _ _ => None |} in
  convert_pdf P 0 (lit "doc.pdf") (lit "gtts") 15
  = (reading (lit "doc.pdf") ++ [ShowError (lit "Error") (lit "not a PDF")],
     Ok tt).
Proof.
  cbv zeta.
  apply (reader_failure_reported _ 0 (lit "doc.pdf") (lit "gtts") 15
           (lit "not a PDF")).
  reflexivity.
Defined.

(** X4. When the text has words, the minutes are positive and creating
    the output directory raises, the run shows one error dialog with the
    message of the exception and returns without calling an engine: no
    episode file is written. *)
Theorem mkdir_failure_reported (P : Platform) (fuel : nat)
    (pdf_path engine : str) (minutes : Z) (text : str) (e : Exn) :
  snd (extract_text P pdf_path) = Ok text ->
  is_empty (strip text) = false ->
  0 < minutes ->
  (length (split text) <= fuel)%nat ->
  mkdir P (podcast_dir P pdf_path) = Some e ->
  convert_pdf P fuel pdf_path engine minutes
  = (reading pdf_path ++
       [Mkdir (podcast_dir P pdf_path) (Some e); ShowError (lit "Error") e],
     Ok tt) /\
  attempts (fst (convert_pdf P fuel pdf_path engine minutes)) = [] /\
  output_files (fst (convert_pdf P fuel pdf_path engine minutes)) = [].
Proof.
  intros Hx Hne Hm Hf Hmk.
  pose proof (split_text_groups fuel text (minutes * 180) ltac:(lia) Hf)
    as Hs.
  rewrite (convert_pdf_mkdir_raises _ _ _ _ _ _ _ e Hx Hne Hs Hmk).
  repeat split; reflexivity.
Qed.

Lemma mkdir_failure_reported_witness :
  let P := {| pdf_pages := fun _ => inr [lit "hello world"];
              podcast_dir := fun _ => lit "doc_podcast";
              mkdir := fun _ => Some (lit "read-only file system");
              edge_save := fun _ _ => None;
              gtts_save := fun _ _ => None |} in
  attempts (fst (convert_pdf P 2 (lit "doc.pdf") (lit "gtts") 15)) = [].
Proof.
  cbv zeta.
  refine (proj1 (proj2 (mkdir_failure_reported _ 2 (lit "doc.pdf")
            (lit "gtts") 15 (lit "hello world")
            (lit "read-only file system") _ _ _ _ _)));
    [reflexivity | reflexivity | lia | simpl; lia | reflexivity].
Defined.

Lemma blank_pages_iff (pages : list str) :
  forallb isspace
    (join [newline; newline] (filter (fun t => negb (is_empty t)) pages))
  = true
  <-> Forall (fun p => forallb isspace p = true) pages.
Proof.
  rewrite <- split_nil_iff, split_join_pages, concat_split_filter.
  induction pages as [|p pages IH]; simpl.
  - split; constructor.
  - split.
    + intros H. apply app_eq_nil in H. destruct H as [Hp Hps].
      constructor; [now apply split_nil_iff | now apply IH].
    + intros H. inversion H as [|? ? Hp Hps]; subst.
      apply split_nil_iff in Hp. apply IH in Hps. now rewrite Hp, Hps.
Qed.

(** X2. When the PDF is read, the run ends with the dialog that no text
    could be extracted exactly when every page is empty or has
    whitespace only. *)
Theorem no_text_iff_blank_pages (P : Platform) (fuel : nat)
    (pdf_path engine : str) (minutes : Z) (pages : list str) :
  pdf_pages P pdf_path = inr pages ->
  convert_pdf P fuel pdf_path engine minutes
  = (reading pdf_path ++
       [ShowError (lit "Error")
                  (lit "No text could be extracted from PDF.")],
     Ok tt)
  <-> Forall (fun p => forallb isspace p = true) pages.
Proof.
  intros Hp. pose proof (extract_text_pages _ _ _ Hp) as Hx.
  apply (f_equal snd) in Hx. cbn [snd] in Hx.
  rewrite <- blank_pages_iff, <- strip_empty_iff.
  split.
  - intros Hrun.
    pose proof (convert_pdf_cases P fuel pdf_path engine minutes) as Hc.
    rewrite Hrun in Hc. unfold reading in Hc. cbn [app] in Hc.
    inversion Hc as [e He | text Ht Hb | | text eps e Ht | text eps loop Ht];
      subst.
    + congruence.
    + rewrite Hx in Ht. injection Ht as <-. exact Hb.
  - intros Hb. exact (convert_pdf_blank _ _ _ _ _ _ Hx Hb).
Qed.

Lemma no_text_iff_blank_pages_witness :
  convert_pdf (quiet [lit " "; []; lit "  "]) 0 (lit "doc.pdf")
    (lit "edge-tts") 15
  = (reading (lit "doc.pdf") ++
       [ShowError (lit "Error")
                  (lit "No text could be extracted from PDF.")],
     Ok tt).
Proof.
  apply (no_text_iff_blank_pages (quiet [lit " "; []; lit "  "]) 0
           (lit "doc.pdf") (lit "edge-tts") 15 [lit " "; []; lit "  "]);
    [reflexivity | repeat constructor].
Defined.

Lemma loop_case_engine (f : Event -> bool) P out_dir engine eps loop :
  (forall line, f (LogInsert line) = false) ->
  (forall text out r, f (backend_call engine text out r) = false) ->
  LoopCase P out_dir engine eps loop ->
  existsb f (fst loop) = false.
Proof.
  intros Hlog Hcall Hl.
  assert (Hev : forall r ep,
             existsb f (episode_events out_dir engine r ep) = false).
  { intros r ep. unfold episode_events. cbn [existsb].
    now rewrite Hlog, Hcall. }
  destruct Hl; cbn [fst].
  - apply existsb_flat_map. intros. now apply unknown_events_quiet.
  - now apply existsb_flat_map.
  - now rewrite existsb_app, existsb_flat_map, Hev by auto.
Qed.

(** When [f] holds of no log line, no dialog, no reading and no making
    of a directory, a run has an event of which [f] holds only in its
    loop. *)
Lemma run_case_engine (f : Event -> bool) P fuel pdf_path engine minutes r :
  (forall line, f (LogInsert line) = false) ->
  (forall a b, f (ShowError a b) = false) ->
  (forall a b, f (ShowInfo a b) = false) ->
  (forall a, f (ReadPdf a) = false) ->
  (forall a b, f (Mkdir a b) = false) ->
  (forall text out r, f (backend_call engine text out r) = false) ->
  RunCase P fuel pdf_path engine minutes r ->
  existsb f (fst r) = false.
Proof.
  intros Hlog Herr Hinfo Hread Hmk Hcall Hr.
  destruct Hr as [ | | | | text eps loop Hx Hne Hs Hm Hl];
    cbn [fst]; unfold reading; cbn [app existsb];
    rewrite ?Hlog, ?Hread, ?Herr, ?Hmk; try reflexivity.
  rewrite existsb_app.
  rewrite (loop_case_engine f P _ engine eps loop Hlog Hcall Hl).
  destruct (snd loop); cbn [existsb orb]; now rewrite ?Herr, ?Hinfo.
Qed.

(** X5. The engine box decides which engine is called: a run with
    ["gtts"] never calls edge-tts, and a run with ["edge-tts"] never
    calls gTTS, whatever the PDF, the minutes and the failures. *)
Theorem engine_dispatch (P : Platform) (fuel : nat) (pdf_path : str)
    (minutes : Z) :
  existsb is_edge (fst (convert_pdf P fuel pdf_path (lit "gtts") minutes))
  = false /\
  existsb is_gtts
    (fst (convert_pdf P fuel pdf_path (lit "edge-tts") minutes))
  = false.
Proof.
  split.
  - apply (run_case_engine is_edge P fuel pdf_path (lit "gtts") minutes);
      try reflexivity.
    apply convert_pdf_cases.
  - apply (run_case_engine is_gtts P fuel pdf_path (lit "edge-tts") minutes);
      try reflexivity.
    apply convert_pdf_cases.
Qed.






Lemma number_index texts : forall idx ep,
  In ep (number idx texts) -> idx <= fst ep.
Proof.
  induction texts as [|t ts IH]; intros idx ep H; [destruct H|].
  destruct H as [<- | H]; [simpl; lia|].
  apply IH in H. lia.
Qed.

Lemma episode_file_inj out_dir ep1 ep2 :
  1 <= fst ep1 -> 1 <= fst ep2 ->
  episode_file out_dir ep1 = episode_file out_dir ep2 ->
  fst ep1 = fst ep2.
Proof.
  unfold episode_file, path_join. intros H1 H2 H.
  apply app_inv_head, app_inv_head in H.
  now apply episode_name_injective in H.
Qed.

Lemma NoDup_episode_files out_dir texts : forall idx,
  1 <= idx -> NoDup (map (episode_file out_dir) (number idx texts)).
Proof.
  induction texts as [|t ts IH]; intros idx Hi; [constructor|].
  cbn [number map]. constructor; [|apply IH; lia].
  intros Hin. apply in_map_iff in Hin. destruct Hin as (ep & Hf & Hep).
  pose proof (number_index _ _ _ Hep) as Hle.
  apply episode_file_inj in Hf; simpl in *; lia.
Qed.

(** X11. Different indices from 1 on give different file names, and so
    the episodes of the segmenter, under a positive budget, all go to
    different files of the output directory: within a run no episode can
    overwrite another. *)
Theorem episode_files_distinct (t : str) (w : Z) (fuel : nat)
    (out_dir : str) :
  0 < w -> (length (split t) <= fuel)%nat ->
  (forall n m, 1 <= n -> 1 <= m ->
               episode_name n = episode_name m -> n = m) /\
  exists eps,
    split_text fuel t w = Some eps /\
    NoDup (map (episode_file out_dir) eps).
Proof.
  intros Hw Hf. split; [apply episode_name_injective|].
  rewrite split_text_groups by auto.
  eexists; split; [reflexivity|].
  apply NoDup_episode_files. lia.
Qed.

Lemma episode_files_distinct_witness :
  exists eps,
    split_text 5 (lit "a b c d e") 2 = Some eps /\
    NoDup (map (episode_file (lit "doc_podcast")) eps).
Proof.
  destruct (episode_files_distinct (lit "a b c d e") 2 5 (lit "doc_podcast"))
    as (_ & eps & He & Hn); [lia | simpl; lia |].
  exists eps. split; [exact He | exact Hn].
Defined.

(** The files that the loop writes are those of the first episodes. *)
Lemma loop_output_files P out_dir engine eps loop :
  LoopCase P out_dir engine eps loop ->
  exists j, output_files (fst loop)
            = map (episode_file out_dir) (firstn j eps).
Proof.
  intros Hl. destruct Hl as [Hk | Hk Hok | pre ep post e Hk -> Hpre Hep];
    cbn [fst].
  - exists 0%nat. unfold output_files.
    now apply unknown_events_silent.
  - exists (length eps). rewrite firstn_all. apply output_files_events.
  - exists (length pre). unfold output_files. rewrite flat_map_app.
    fold (output_files (episode_events out_dir engine (Some e) ep)).
    rewrite output_files_raised, app_nil_r.
    rewrite <- (Nat.add_0_r (length pre)), firstn_app_2.
    cbn [firstn]. rewrite app_nil_r. apply output_files_events.
Qed.

Lemma run_output_files P fuel pdf_path engine minutes r :
  RunCase P fuel pdf_path engine minutes r ->
  output_files (fst r) = [] \/
  exists text eps j,
    snd (extract_text P pdf_path) = Ok text /\
    split_text fuel text (minutes * 180) = Some eps /\
    output_files (fst r)
    = map (episode_file (podcast_dir P pdf_path)) (firstn j eps).
Proof.
  intros Hr.
  destruct Hr as [ | | | | text eps loop Hx Hne Hs Hm Hl];
    try (left; reflexivity).
  right. destruct (loop_output_files _ _ _ _ _ Hl) as [j Hj].
  exists text, eps, j. repeat split; auto.
  cbn [fst]. unfold output_files, reading in *.
  cbn [app flat_map written]. rewrite flat_map_app, Hj.
  destruct (snd loop); cbn [flat_map written]; now rewrite app_nil_r.
Qed.

(** X12. No run writes the same file twice: the episode files that
    exist after a run are all different, whatever the PDF, the engine,
    the minutes and the failures. *)
Theorem output_files_distinct (P : Platform) (fuel : nat)
    (pdf_path engine : str) (minutes : Z) :
  NoDup (output_files (fst (convert_pdf P fuel pdf_path engine minutes))).
Proof.
  destruct (run_output_files _ _ _ _ _ _
              (convert_pdf_cases P fuel pdf_path engine minutes))
    as [-> | (text & eps & j & Hx & Hs & ->)]; [constructor|].
  apply split_text_some in Hs. destruct Hs as [_ ->].
  set (eps := number 1 _).
  assert (Hn : NoDup (map (episode_file (podcast_dir P pdf_path)) eps))
    by (apply NoDup_episode_files; lia).
  rewrite <- (firstn_skipn j eps), map_app in Hn.
  now apply NoDup_app_remove_r in Hn.
Qed.

Lemma loop_attempts P out_dir engine eps loop :
  known_engine engine = true ->
  LoopCase P out_dir engine eps loop ->
  exists k j,
    (k <= length eps)%nat /\ (j = k \/ k = S j) /\
    map fst (attempts (fst loop))
    = map (episode_file out_dir) (firstn k eps) /\
    spoken (fst loop) = map snd (firstn k eps) /\
    output_files (fst loop) = map (episode_file out_dir) (firstn j eps).
Proof.
  intros Hk Hl.
  destruct Hl as [Hu | _ Hok | pre ep post e _ -> Hpre Hep]; cbn [fst].
  - congruence.
  - exists (length eps), (length eps). rewrite firstn_all.
    repeat split; auto.
    + rewrite attempts_events, map_map. reflexivity.
    + apply spoken_events.
    + apply output_files_events.
  - exists (S (length pre)), (length pre).
    assert (F1 : firstn (S (length pre)) (pre ++ ep :: post) = pre ++ [ep]).
    { rewrite <- (Nat.add_1_r (length pre)), firstn_app_2. reflexivity. }
    assert (F0 : firstn (length pre) (pre ++ ep :: post) = pre).
    { rewrite <- (Nat.add_0_r (length pre)), firstn_app_2.
      cbn [firstn]. apply app_nil_r. }
    rewrite F1, F0. repeat split; auto.
    + rewrite length_app. cbn [length]. lia.
    + unfold attempts. rewrite flat_map_app.
      fold (attempts (flat_map (episode_events out_dir engine None) pre)).
      rewrite attempts_events, !map_app, map_map. f_equal.
      unfold episode_events.
      destruct (backend_call_cases engine) as [-> | ->]; reflexivity.
    + unfold spoken. rewrite flat_map_app.
      fold (spoken (flat_map (episode_events out_dir engine None) pre)).
      rewrite spoken_events, map_app. f_equal.
      unfold episode_events.
      destruct (backend_call_cases engine) as [-> | ->]; reflexivity.
    + unfold output_files. rewrite flat_map_app.
      fold (output_files (episode_events out_dir engine (Some e) ep)).
      rewrite output_files_raised, app_nil_r.
      apply output_files_events.
Qed.

(** X13. With a known engine, whatever fails: the engine is called for
    the first [k] episodes of the segmenter, in their order, once each,
    with the text of the episode and the path of its file; the files
    written are those of all these episodes, or of all but the last of
    them (the one whose call raised). *)
Theorem attempts_in_order (P : Platform) (fuel : nat)
    (pdf_path engine : str) (minutes : Z) (text : str)
    (eps : list episode) :
  known_engine engine = true ->
  snd (extract_text P pdf_path) = Ok text ->
  split_text fuel text (minutes * 180) = Some eps ->
  let out_dir := podcast_dir P pdf_path in
  let run := convert_pdf P fuel pdf_path engine minutes in
  exists k j,
    (k <= length eps)%nat /\ (j = k \/ k = S j) /\
    map fst (attempts (fst run))
    = map (episode_file out_dir) (firstn k eps) /\
    spoken (fst run) = map snd (firstn k eps) /\
    output_files (fst run) = map (episode_file out_dir) (firstn j eps).
Proof.
  intros Hk Hx Hs out_dir run. subst run.
  destruct (convert_pdf_cases P fuel pdf_path engine minutes)
    as [e He | text' Hx' Hb | text' Hx' Hne Hs' | text' eps' e Hx' Hne Hs' Hm
       | text' eps' loop Hx' Hne Hs' Hm Hl];
    try (exists 0%nat, 0%nat; repeat split; auto; lia).
  assert (text' = text) by congruence. subst text'.
  assert (eps' = eps) by congruence. subst eps'.
  destruct (loop_attempts _ _ _ _ _ Hk Hl)
    as (k & j & Hle & Hkj & Ha & Hsp & Ho).
  exists k, j. repeat split; auto; cbn [fst].
  - unfold attempts, reading in *. cbn [app flat_map attempt].
    rewrite flat_map_app, map_app, Ha.
    destruct (snd loop); cbn [flat_map attempt map]; now rewrite app_nil_r.
  - unfold spoken, reading in *. cbn [app flat_map spoken_text].
    rewrite flat_map_app, Hsp.
    destruct (snd loop); cbn [flat_map spoken_text]; now rewrite app_nil_r.
  - unfold output_files, reading in *. cbn [app flat_map written].
    rewrite flat_map_app, Ho.
    destruct (snd loop); cbn [flat_map written]; now rewrite app_nil_r.
Qed.

Lemma attempts_in_order_witness :
  let P := second_fails [sample_text 400] in
  let run := convert_pdf P 400 (lit "doc.pdf") (lit "edge-tts") 1 in
  exists eps k j,
    split_text 400 (sample_text 400) (1 * 180) = Some eps /\
    (j = k \/ k = S j) /\
    spoken (fst run) = map snd (firstn k eps) /\
    output_files (fst run)
    = map (episode_file (lit "doc_podcast")) (firstn j eps).
Proof.
  cbv zeta.
  pose (eps := number 1 (map (join [space])
                             (groups 180 (repeat (lit "word") 400)))).
  destruct (attempts_in_order (second_fails [sample_text 400]) 400
              (lit "doc.pdf") (lit "edge-tts") 1 (sample_text 400) eps)
    as (k & j & _ & Hkj & _ & Hsp & Ho);
    [reflexivity | reflexivity | vm_compute; reflexivity |].
  exists eps, k, j. split; [vm_compute; reflexivity|].
  split; [exact Hkj|]. split; [exact Hsp | exact Ho].
Defined.


(** X15. A run stays in the segmenter for ever exactly when the minutes
    are not positive and the extracted text has a word: in every other
    case enough iterations let it return. *)
Theorem convert_pdf_hangs_iff (P : Platform) (pdf_path engine : str)
    (minutes : Z) :
  (forall fuel, snd (convert_pdf P fuel pdf_path engine minutes) = Running)
  <-> (minutes <= 0 /\
       exists text, snd (extract_text P pdf_path) = Ok text /\
                    split text <> []).
Proof.
  split.
  - intros Hrun.
    destruct (pdf_pages P pdf_path) as [e|pages] eqn:Hp.
    { specialize (Hrun 0%nat).
      rewrite (convert_pdf_reader_raises _ _ _ _ _ e Hp) in Hrun.
      discriminate. }
    pose proof (extract_text_pages _ _ _ Hp) as Hx.
    apply (f_equal snd) in Hx. cbn [snd] in Hx.
    set (text := join _ _) in Hx.
    destruct (is_empty (strip text)) eqn:He.
    { specialize (Hrun 0%nat).
      rewrite (convert_pdf_blank _ _ _ _ _ _ Hx He) in Hrun.
      discriminate. }
    split; [|exists text; split; [exact Hx|now apply strip_nonempty_split]].
    destruct (Z.lt_ge_cases 0 minutes) as [Hm|Hm]; [|lia].
    exfalso. specialize (Hrun (length (split text))).
    destruct (convert_pdf_cases P (length (split text)) pdf_path engine
                minutes)
      as [ | | text' Hx' _ Hs | | ]; try discriminate.
    assert (text' = text) by congruence. subst text'.
    rewrite split_text_groups in Hs by (auto; lia). discriminate.
  - intros (Hm & text & Hx & Hw) fuel.
    apply strip_nonempty_split in Hw.
    now rewrite (convert_pdf_stuck _ _ _ _ _ _ Hx Hw Hm).
Qed.
